(** * The block store of the time-series tree database (package [bstore])

    A shallow embedding of [internal/bstore/blockstore.go]: the generation
    and commit protocol, the per-stream write-lock registry, the superblock
    records kept in the metadata store, the address allocator and the typed
    read path.

    Conventions.
    - A [uint64] is a [Z]; every arithmetic step of the source that can
      overflow is written with [wrap64].
    - A [uuid.UUID] (a byte slice) is a [list Z].
    - The Go heap is modelled only where the source shares objects: the
      [sync.Mutex] objects of the lock registry live in a store indexed by
      pointer.  Superblocks are values: [Clone] yields a distinct object.
    - The collection ["superblocks"] of the metadata store is the list of
      its documents in natural (insertion) order, as the driver decodes
      them.  The driver writes a [uint64] as a BSON [int64] and refuses a
      value from [2^63] on, in a selector as well as in a document: that is
      the driver error of the model, [MgoErr], and the branches of the
      source on it are kept.
    - [log.Panic] is the outcome [Panic]; a wait on a held mutex is the
      outcome [Blocks] in the sequential reading of the code, and a
      disabled step in the interleaving semantics. *)

From Stdlib Require Import ZArith Lia.
From stdpp Require Import base gmap list strings sorting.

Local Open Scope Z_scope.

(** ** Machine integers *)

Definition two64 : Z := 2 ^ 64.

Definition wrap64 (z : Z) : Z := z mod two64.

(** [const LatestGeneration = uint64(^(uint64(0)))] *)
Definition LatestGeneration : Z := wrap64 (Z.lnot 0).

(** ** Stream identifiers *)

Definition UUID : Type := list Z.

(** [rv := [16]byte{}; copy(rv[:], id); return rv] *)
Definition UUIDToMapKey (id : UUID) : list Z :=
  take 16 id ++ replicate (16 - length id) 0.

(** ** Outcomes of a call *)

Inductive Result (A : Type) : Type :=
  | Return (a : A)
  | Panic (msg : string)
  | Blocks.
Arguments Return {A} a.
Arguments Panic {A} msg.
Arguments Blocks {A}.

(** ** Superblocks and their stored form *)

Record Superblock : Type := mkSuperblock {
  uuid : UUID;
  gen : Z;
  root : Z;
  unlinked : bool
}.

Record fake_sblock : Type := mk_fake_sblock {
  Uuid : string;
  Gen : Z;
  Root : Z;
  Unlinked : bool
}.

#[global] Instance fake_sblock_eq_dec : EqDecision fake_sblock.
Proof. solve_decision. Defined.

(** Modelled from the spec: [NewSuperblock] is declared outside this file;
    it synthesizes a fresh Superblock at version 0 with no root.  The root
    is a [uint64], and the absent root is its zero value. *)
Definition NewSuperblock (id : UUID) : Superblock :=
  {| uuid := id; gen := 0; root := 0; unlinked := false |}.

(** Modelled from the spec: [Clone] is declared outside this file; a new
    Superblock is derived by cloning the latest one, the clone being an
    object of its own with the same stream, version and root. *)
Definition Clone (s : Superblock) : Superblock :=
  {| uuid := uuid s; gen := gen s; root := root s; unlinked := unlinked s |}.

Definition set_gen (g : Z) (s : Superblock) : Superblock :=
  {| uuid := uuid s; gen := g; root := root s; unlinked := unlinked s |}.

Definition set_root (r : Z) (s : Superblock) : Superblock :=
  {| uuid := uuid s; gen := gen s; root := r; unlinked := unlinked s |}.

(** ** The metadata store: the collection of superblock documents *)

Module Mgo.

Inductive result (A : Type) : Type :=
  | MgoOk (a : A)
  | ErrNotFound
  | MgoErr (e : string).
Arguments MgoOk {A} a.
Arguments ErrNotFound {A}.
Arguments MgoErr {A} e.

Definition Collection : Type := list fake_sblock.

(** The condition a selector puts on the field ["gen"]: none, an exact
    value, or [{"$gte": sgen, "$lt": egen}]. *)
Inductive gen_cond : Type :=
  | AnyGen
  | GenIs (g : Z)
  | GenFromTo (sgen egen : Z).

(** A [bson.M] selector over the fields the source queries. *)
Record selector : Type := mk_selector {
  sel_uuid : string;
  sel_gen : gen_cond;
  sel_unlinked : option bool
}.

(** *** What the driver can encode *)

(** BSON has no unsigned 64-bit integer: the encoder writes a [uint64] as
    an [int64] and gives up on a value whose sign bit is set. *)
Definition bson_uint64 : string :=
  "BSON has no uint64 type, and value is too large to fit correctly in an int64".

Definition encodable (v : Z) : bool := bool_decide (v < 2 ^ 63).

Definition encodable_gen (c : gen_cond) : bool :=
  match c with
  | AnyGen => true
  | GenIs g => encodable g
  | GenFromTo sgen egen => encodable sgen && encodable egen
  end.

Definition encodable_selector (q : selector) : bool := encodable_gen (sel_gen q).

Definition encodable_doc (d : fake_sblock) : bool :=
  encodable (Gen d) && encodable (Root d).

(** *** Selecting documents *)

Definition gen_ok (c : gen_cond) (g : Z) : bool :=
  match c with
  | AnyGen => true
  | GenIs g' => bool_decide (g = g')
  | GenFromTo sgen egen => bool_decide (sgen ≤ g) && bool_decide (g < egen)
  end.

Definition unlinked_ok (c : option bool) (u : bool) : bool :=
  match c with
  | None => true
  | Some b => bool_decide (u = b)
  end.

Definition matches (q : selector) (d : fake_sblock) : bool :=
  bool_decide (Uuid d = sel_uuid q)
  && gen_ok (sel_gen q) (Gen d)
  && unlinked_ok (sel_unlinked q) (Unlinked d).

(** The documents of the collection a selector matches, in natural order. *)
Definition matching (c : Collection) (q : selector) : list fake_sblock :=
  filter (λ d, Is_true (matches q d)) c.

(** *** Queries *)

(** A [*mgo.Query] stands for what comes back once the driver sends it: the
    documents, or the error of the encoder. *)
Definition Query : Type := result (list fake_sblock).

(** [C("superblocks").Find(q)] *)
Definition Find (c : Collection) (q : selector) : Query :=
  if encodable_selector q then MgoOk (matching c q) else MgoErr bson_uint64.

(** The order of [Sort("-gen")]: larger versions first. *)
Definition gen_desc (a b : fake_sblock) : Prop := Gen b ≤ Gen a.

#[global] Instance gen_desc_dec a b : Decision (gen_desc a b).
Proof. unfold gen_desc. apply _. Defined.

(** [qry.Sort("-gen")] *)
Definition Sort_gen_desc (qry : Query) : Query :=
  match qry with
  | MgoOk docs => MgoOk (merge_sort gen_desc docs)
  | ErrNotFound => ErrNotFound
  | MgoErr e => MgoErr e
  end.

(** [qry.One(&rs)] *)
Definition One (qry : Query) : result fake_sblock :=
  match qry with
  | MgoOk [] => ErrNotFound
  | MgoOk (d :: _) => MgoOk d
  | ErrNotFound => ErrNotFound
  | MgoErr e => MgoErr e
  end.

(** [qry.Iter()] with the calls of [iter.Next(&rs)] up to the first that
    answers [false]: the documents in turn, and none at all when the query
    failed.  The error stays in the iterator, for [iter.Err()]. *)
Definition Iter (qry : Query) : list fake_sblock :=
  match qry with
  | MgoOk docs => docs
  | ErrNotFound => []
  | MgoErr _ => []
  end.

(** *** Writes *)

(** [C("superblocks").Insert(doc)] *)
Definition Insert (c : Collection) (d : fake_sblock) : result Collection :=
  if encodable_doc d then MgoOk (c ++ [d]) else MgoErr bson_uint64.

(** Replace the first document the selector matches. *)
Fixpoint update_first (q : selector) (d : fake_sblock) (c : Collection)
  : option Collection :=
  match c with
  | [] => None
  | x :: rest =>
      if matches q x then Some (d :: rest)
      else (λ rest', x :: rest') <$> update_first q d rest
  end.

(** [C("superblocks").Upsert(q, doc)]: one matching document is replaced,
    and the document is inserted when none matches. *)
Definition Upsert (c : Collection) (q : selector) (d : fake_sblock)
  : result Collection :=
  if encodable_selector q && encodable_doc d then
    match update_first q d c with
    | Some c' => MgoOk c'
    | None => MgoOk (c ++ [d])
    end
  else MgoErr bson_uint64.

(** [C("superblocks").RemoveAll(q)]: every matching document is removed;
    removing none is no error. *)
Definition RemoveAll (c : Collection) (q : selector) : result Collection :=
  if encodable_selector q
  then MgoOk (filter (λ d, ¬ Is_true (matches q d)) c)
  else MgoErr bson_uint64.

End Mgo.

(** ** Data blocks *)

(** Modelled from the spec: the block types are declared outside this file;
    a block is opaque beyond its address, version, point width and start
    time, plus a type-specific payload. *)
Record Coreblock : Type := mkCoreblock {
  cb_Identifier : Z;
  cb_Generation : Z;
  cb_PointWidth : Z;
  cb_StartTime : Z;
  cb_payload : list Z
}.

Record Vectorblock : Type := mkVectorblock {
  vb_Identifier : Z;
  vb_Generation : Z;
  vb_PointWidth : Z;
  vb_StartTime : Z;
  vb_payload : list Z
}.

(** The interface [Datablock] and its two implementations. *)
Inductive Datablock : Type :=
  | DCore (cb : Coreblock)
  | DVector (vb : Vectorblock).

Definition GetIdentifier (b : Datablock) : Z :=
  match b with DCore cb => cb_Identifier cb | DVector vb => vb_Identifier vb end.
Definition GetGeneration (b : Datablock) : Z :=
  match b with DCore cb => cb_Generation cb | DVector vb => vb_Generation vb end.
Definition GetPointWidth (b : Datablock) : Z :=
  match b with DCore cb => cb_PointWidth cb | DVector vb => vb_PointWidth vb end.
Definition GetStartTime (b : Datablock) : Z :=
  match b with DCore cb => cb_StartTime cb | DVector vb => vb_StartTime vb end.

(** [&Coreblock{}] and [&Vectorblock{}] *)
Definition zero_Coreblock : Coreblock := mkCoreblock 0 0 0 0 [].
Definition zero_Vectorblock : Vectorblock := mkVectorblock 0 0 0 0 [].

(** The type tag [DatablockGetBufferType] reads from a payload; [Bad] stands
    for every tag that is neither [Core] nor [Vector]. *)
Inductive BlockType : Type := Core | Vector | Bad.

(** ** What the file takes from outside *)

Class Collaborators : Type := {
  (** [id.String()] of the uuid library *)
  uuid_String : UUID → string;
  (** the state behind the [bprovider.StorageProvider] *)
  Storage : Type;
  (** [bs.store.Read(addr, syncbuf)], the trimmed payload *)
  Read : Storage → Z → list Z;
  (** [LinkAndStore(store, vblocks, cblocks)], the linking algorithm, with
      the storage it leaves behind *)
  LinkAndStore : Storage → list Vectorblock → list Coreblock → gmap Z Z * Storage;
  DatablockGetBufferType : list Z → BlockType;
  (** [rv.Deserialize(trimbuf)] on a core block and on a vector block *)
  Coreblock_Deserialize : Coreblock → list Z → Coreblock;
  Vectorblock_Deserialize : Vectorblock → list Z → Vectorblock;
  (** the constant [RELOCATION_BASE] *)
  RELOCATION_BASE : Z
}.

(** ** The block cache *)

(** Modelled from the spec: [initCache], [cacheGet] and [cachePut] are
    declared outside this file.  The cache is a bounded mapping from address
    to decoded block with capacity [cachemax]; [get] returns the block and
    moves its entry to the most-recent position, or returns a miss; [put]
    inserts at the most-recent position and, if capacity is exceeded, evicts
    from the least-recent end.  The recency list is kept most recent first. *)
Record Cache : Type := mkCache {
  cachemax : Z;
  lru : list (Z * Datablock)
}.

Definition initCache (cachesize : Z) : Cache :=
  {| cachemax := cachesize; lru := [] |}.

Fixpoint lru_find (addr : Z) (l : list (Z * Datablock)) : option Datablock :=
  match l with
  | [] => None
  | (a, b) :: rest => if bool_decide (a = addr) then Some b else lru_find addr rest
  end.

Definition lru_remove (addr : Z) (l : list (Z * Datablock)) : list (Z * Datablock) :=
  filter (λ e, e.1 ≠ addr) l.

Definition cacheGet (c : Cache) (addr : Z) : option Datablock * Cache :=
  match lru_find addr (lru c) with
  | Some b =>
      (Some b, {| cachemax := cachemax c; lru := (addr, b) :: lru_remove addr (lru c) |})
  | None => (None, c)
  end.

Definition cachePut (c : Cache) (addr : Z) (b : Datablock) : Cache :=
  {| cachemax := cachemax c;
     lru := take (Z.to_nat (cachemax c)) ((addr, b) :: lru_remove addr (lru c)) |}.

(** ** The write-lock objects *)

(** The [sync.Mutex] objects on the heap: a pointer is an index, the cell
    tells whether the mutex is held. *)
Definition MutexHeap : Type := list bool.

(** [new(sync.Mutex)] *)
Definition Mutex_new (h : MutexHeap) : nat * MutexHeap := (length h, h ++ [false]).

(** [mtx.Lock()]: [None] while the mutex is held by someone else. *)
Definition Mutex_Lock (h : MutexHeap) (m : nat) : option MutexHeap :=
  match h !! m with
  | Some false => Some (<[m := true]> h)
  | _ => None
  end.

(** [mtx.Unlock()]: [None] is the run-time error of unlocking a mutex that is
    not locked. *)
Definition Mutex_Unlock (h : MutexHeap) (m : nat) : option MutexHeap :=
  match h !! m with
  | Some true => Some (<[m := false]> h)
  | _ => None
  end.

(** ** The address allocator *)

(** The goroutine started by [NewBlockStore] and the channel [bs.alloc]:
    the goroutine's local [relocation_addr] and the buffered values, oldest
    first. *)
Record Allocator : Type := mkAllocator {
  relocation_addr : Z;
  chan : list Z
}.

Definition alloc_capacity : nat := 256.

Section Definitions.
Context `{Collab : Collaborators}.

(** [relocation_addr += 1; if relocation_addr < RELOCATION_BASE
    { relocation_addr = RELOCATION_BASE }] *)
Definition next_addr (a : Z) : Z :=
  let a' := wrap64 (a + 1) in
  if bool_decide (a' < RELOCATION_BASE) then RELOCATION_BASE else a'.

(** [make(chan uint64, 256)] and [relocation_addr := uint64(RELOCATION_BASE)] *)
Definition alloc_fresh : Allocator :=
  {| relocation_addr := RELOCATION_BASE; chan := [] |}.

(** One turn of the goroutine's loop, [bs.alloc <- relocation_addr] and the
    increment; the send is disabled while the buffer is full. *)
Definition alloc_send (al : Allocator) : option Allocator :=
  if bool_decide (length (chan al) < alloc_capacity)%nat
  then Some {| relocation_addr := next_addr (relocation_addr al);
               chan := chan al ++ [relocation_addr al] |}
  else None.

(** [<-bs.alloc]; the receive is disabled while the buffer is empty. *)
Definition alloc_recv (al : Allocator) : option (Z * Allocator) :=
  match chan al with
  | [] => None
  | a :: rest => Some (a, {| relocation_addr := relocation_addr al; chan := rest |})
  end.

(** The two parties of the channel. *)
Inductive alloc_event : Type := Produce | Consume.

(** An interleaving of sends and receives, with the addresses handed out,
    in order; [None] when the schedule asks for a disabled step. *)
Fixpoint alloc_run (sched : list alloc_event) (al : Allocator)
  : option (list Z * Allocator) :=
  match sched with
  | [] => Some ([], al)
  | Produce :: sched' =>
      al' ← alloc_send al; alloc_run sched' al'
  | Consume :: sched' =>
      '(a, al') ← alloc_recv al;
      '(out, al'') ← alloc_run sched' al';
      Some (a :: out, al'')
  end.

(** ** The block store *)

Record BlockStore : Type := mkBlockStore {
  db : Mgo.Collection;
  mutexes : MutexHeap;
  _wlocks : gmap (list Z) nat;
  cache : Cache;
  store : Storage;
  alloc : Allocator
}.

Definition set_db (c : Mgo.Collection) (bs : BlockStore) : BlockStore :=
  mkBlockStore c (mutexes bs) (_wlocks bs) (cache bs) (store bs) (alloc bs).
Definition set_mutexes (h : MutexHeap) (bs : BlockStore) : BlockStore :=
  mkBlockStore (db bs) h (_wlocks bs) (cache bs) (store bs) (alloc bs).
Definition set_wlocks (w : gmap (list Z) nat) (bs : BlockStore) : BlockStore :=
  mkBlockStore (db bs) (mutexes bs) w (cache bs) (store bs) (alloc bs).
Definition set_cache (c : Cache) (bs : BlockStore) : BlockStore :=
  mkBlockStore (db bs) (mutexes bs) (_wlocks bs) c (store bs) (alloc bs).
Definition set_store (s : Storage) (bs : BlockStore) : BlockStore :=
  mkBlockStore (db bs) (mutexes bs) (_wlocks bs) (cache bs) s (alloc bs).
Definition set_alloc (a : Allocator) (bs : BlockStore) : BlockStore :=
  mkBlockStore (db bs) (mutexes bs) (_wlocks bs) (cache bs) (store bs) a.

(** [NewBlockStore(targetserv, cachesize, dbpath)]: [dial] is the answer of
    [mgo.Dial], carrying the documents the server holds, and [disk] the
    storage found under [dbpath]. *)
Definition NewBlockStore (dial : Mgo.result Mgo.Collection) (cachesize : Z)
    (disk : Storage) : option BlockStore * option string :=
  match dial with
  | Mgo.MgoOk c =>
      (Some {| db := c; mutexes := []; _wlocks := ∅; cache := initCache cachesize;
               store := disk; alloc := alloc_fresh |}, None)
  | Mgo.ErrNotFound => (None, Some "not found"%string)
  | Mgo.MgoErr e => (None, Some e)
  end.

(** [allocateBlock]: the receive [<-bs.alloc].  While the buffer is empty
    the receiver waits and the goroutine, which is not blocked then, takes
    its turn: it sends, and the receive takes what it sent.  The last
    branch is never reached, the goroutine can send into an empty buffer. *)
Definition allocateBlock (bs : BlockStore) : Z * BlockStore :=
  match alloc_recv (alloc bs) with
  | Some (a, al) => (a, set_alloc al bs)
  | None =>
      match alloc_send (alloc bs) ≫= alloc_recv with
      | Some (a, al) => (a, set_alloc al bs)
      | None => (relocation_addr (alloc bs), bs)
      end
  end.

(** [n] calls of [allocateBlock] in a row, with the addresses they return. *)
Fixpoint allocate_many (n : nat) (bs : BlockStore) : list Z * BlockStore :=
  match n with
  | O => ([], bs)
  | S n' =>
      let '(a, bs1) := allocateBlock bs in
      let '(rest, bs2) := allocate_many n' bs1 in
      (a :: rest, bs2)
  end.

(** ** Generations *)

(** The field [blockstore] of the source points at the one block store of
    the process; the operations below take that store as an argument. *)
Record Generation : Type := mkGeneration {
  Cur_SB : Superblock;
  New_SB : Superblock;
  cblocks : list Coreblock;
  vblocks : list Vectorblock;
  unref_vaddrs : list Z;
  flushed : bool
}.

(** [g.New_SB.root = addr] *)
Definition UpdateRootAddr (g : Generation) (addr : Z) : Generation :=
  mkGeneration (Cur_SB g) (set_root addr (New_SB g)) (cblocks g) (vblocks g)
    (unref_vaddrs g) (flushed g).

(** [return &g.Cur_SB.uuid] *)
Definition Generation_Uuid (g : Generation) : UUID := uuid (Cur_SB g).

(** [return g.New_SB.gen] *)
Definition Number (g : Generation) : Z := gen (New_SB g).

(** [g.unref_vaddrs = append(g.unref_vaddrs, vaddr)] *)
Definition UnreferenceBlock (g : Generation) (vaddr : Z) : Generation :=
  mkGeneration (Cur_SB g) (New_SB g) (cblocks g) (vblocks g)
    (unref_vaddrs g ++ [vaddr]) (flushed g).

(** ** Unlinking versions *)

(** The selector [{"uuid": id.String(), "gen": {"$gte": sgen, "$lt": egen},
    "unlinked": false}]. *)
Definition unlink_selector (id : UUID) (sgen egen : Z) : Mgo.selector :=
  Mgo.mk_selector (uuid_String id) (Mgo.GenFromTo sgen egen) (Some false).

(** The selector [{"uuid": id.String(), "gen": g}]. *)
Definition exact_selector (id : UUID) (g : Z) : Mgo.selector :=
  Mgo.mk_selector (uuid_String id) (Mgo.GenIs g) None.

(** The selector [{"uuid": id.String()}]. *)
Definition stream_selector (id : UUID) : Mgo.selector :=
  Mgo.mk_selector (uuid_String id) Mgo.AnyGen None.

Definition mark_unlinked (rs : fake_sblock) : fake_sblock :=
  mk_fake_sblock (Uuid rs) (Gen rs) (Root rs) true.

(** The loop [for iter.Next(&rs) { rs.Unlinked = true; Upsert(...) }] over
    the documents the query returned. *)
Fixpoint unlink_loop (id : UUID) (docs : list fake_sblock) (c : Mgo.Collection)
  : Result unit * Mgo.Collection :=
  match docs with
  | [] => (Return (), c)
  | rs :: docs' =>
      match Mgo.Upsert c (exact_selector id (Gen rs)) (mark_unlinked rs) with
      | Mgo.MgoOk c' => unlink_loop id docs' c'
      | Mgo.ErrNotFound => (Panic "not found", c)
      | Mgo.MgoErr e => (Panic e, c)
      end
  end.

(** [UnlinkGenerations(id, sgen, egen)]; the value returned is the [error],
    which is always [nil]: the error of a query that failed is never read
    from the iterator. *)
Definition UnlinkGenerations (bs : BlockStore) (id : UUID) (sgen egen : Z)
  : Result (option string) * BlockStore :=
  let iter := Mgo.Iter (Mgo.Find (db bs) (unlink_selector id sgen egen)) in
  match unlink_loop id iter (db bs) with
  | (Return _, c) => (Return None, set_db c bs)
  | (Panic msg, c) => (Panic msg, set_db c bs)
  | (Blocks, c) => (Blocks, set_db c bs)
  end.

(** ** Obtaining a generation *)

(** Lines 151 to 181: the generation built once the write lock is held. *)
Definition open_generation (cur : Superblock) : Generation :=
  {| Cur_SB := cur;
     New_SB := set_gen (wrap64 (gen cur + 1)) (Clone cur);
     cblocks := []; vblocks := []; unref_vaddrs := []; flushed := false |}.

Definition load_generation (bs : BlockStore) (id : UUID) : Result Generation :=
  let qry := Mgo.Find (db bs) (stream_selector id) in
  match Mgo.One (Mgo.Sort_gen_desc qry) with
  | Mgo.ErrNotFound => Return (open_generation (NewSuperblock id))
  | Mgo.MgoErr e => Panic e
  | Mgo.MgoOk rs =>
      Return (open_generation
                {| uuid := id; root := Root rs; gen := Gen rs; unlinked := false |})
  end.

(** [ObtainGeneration(id)] run by one task with no other task in between. *)
Definition ObtainGeneration (bs : BlockStore) (id : UUID)
  : Result Generation * BlockStore :=
  let mk := UUIDToMapKey id in
  match _wlocks bs !! mk with
  | None =>
      let '(mtx, h) := Mutex_new (mutexes bs) in
      match Mutex_Lock h mtx with
      | None => (Blocks, set_mutexes h bs)
      | Some h' =>
          let bs' := set_wlocks (<[mk := mtx]> (_wlocks bs)) (set_mutexes h' bs) in
          (load_generation bs' id, bs')
      end
  | Some mtx =>
      match Mutex_Lock (mutexes bs) mtx with
      | None => (Blocks, bs)
      | Some h' =>
          let bs' := set_mutexes h' bs in
          (load_generation bs' id, bs')
      end
  end.

(** ** Committing a generation *)

(** The document [fake_sblock{Uuid: ..., Gen: ..., Root: ...}] that [Commit]
    inserts. *)
Definition superblock_doc (sb : Superblock) : fake_sblock :=
  {| Uuid := uuid_String (uuid sb); Gen := gen sb; Root := root sb; Unlinked := false |}.

(** [Commit()]; the value returned is the pair of the address map and the
    error. *)
Definition Commit (g : Generation) (bs : BlockStore)
  : Result (option (gmap Z Z) * option string) * Generation * BlockStore :=
  if flushed g then (Return (None, Some "Already Flushed"%string), g, bs)
  else
    let '(address_map, disk) := LinkAndStore (store bs) (vblocks g) (cblocks g) in
    let bs1 := set_store disk bs in
    let g1 := mkGeneration (Cur_SB g) (New_SB g) [] [] (unref_vaddrs g) (flushed g) in
    match address_map !! root (New_SB g1) with
    | None => (Panic "Could not obtain root address", g1, bs1)
    | Some rootaddr =>
        let g2 := UpdateRootAddr g1 rootaddr in
        let fsb := superblock_doc (New_SB g2) in
        match Mgo.Insert (db bs1) fsb with
        | Mgo.ErrNotFound => (Panic "not found", g2, bs1)
        | Mgo.MgoErr e => (Panic e, g2, bs1)
        | Mgo.MgoOk c =>
            let bs2 := set_db c bs1 in
            let g3 := mkGeneration (Cur_SB g2) (New_SB g2) (cblocks g2) (vblocks g2)
                        (unref_vaddrs g2) true in
            match _wlocks bs2 !! UUIDToMapKey (Generation_Uuid g3) with
            | None => (Panic "nil pointer dereference", g3, bs2)
            | Some mtx =>
                match Mutex_Unlock (mutexes bs2) mtx with
                | None => (Panic "sync: unlock of unlocked mutex", g3, bs2)
                | Some h => (Return (Some address_map, None), g3, set_mutexes h bs2)
                end
            end
        end
    end.

(** ** Allocating blocks *)

Definition AllocateCoreblock (g : Generation) (bs : BlockStore)
  : (Coreblock * option string) * Generation * BlockStore :=
  let '(a, bs') := allocateBlock bs in
  let cblock :=
    mkCoreblock a (Number g) (cb_PointWidth zero_Coreblock)
      (cb_StartTime zero_Coreblock) (cb_payload zero_Coreblock) in
  ((cblock, None),
   mkGeneration (Cur_SB g) (New_SB g) (cblocks g ++ [cblock]) (vblocks g)
     (unref_vaddrs g) (flushed g),
   bs').

Definition AllocateVectorblock (g : Generation) (bs : BlockStore)
  : (Vectorblock * option string) * Generation * BlockStore :=
  let '(a, bs') := allocateBlock bs in
  let vblock :=
    mkVectorblock a (Number g) (vb_PointWidth zero_Vectorblock)
      (vb_StartTime zero_Vectorblock) (vb_payload zero_Vectorblock) in
  ((vblock, None),
   mkGeneration (Cur_SB g) (New_SB g) (cblocks g) (vblocks g ++ [vblock])
     (unref_vaddrs g) (flushed g),
   bs').

(** ** The typed read path *)

Definition stamp_core (rv : Coreblock) (addr g pw st : Z) : Coreblock :=
  mkCoreblock addr g pw st (cb_payload rv).

Definition stamp_vector (rv : Vectorblock) (addr g pw st : Z) : Vectorblock :=
  mkVectorblock addr g pw st (vb_payload rv).

Definition ReadDatablock (bs : BlockStore) (addr impl_Generation impl_Pointwidth
    impl_StartTime : Z) : Result Datablock * BlockStore :=
  match cacheGet (cache bs) addr with
  | (Some blk, c) => (Return blk, set_cache c bs)
  | (None, c) =>
      let trimbuf := Read (store bs) addr in
      match DatablockGetBufferType trimbuf with
      | Core =>
          let rv := Coreblock_Deserialize zero_Coreblock trimbuf in
          let rv := stamp_core rv addr impl_Generation impl_Pointwidth impl_StartTime in
          (Return (DCore rv), set_cache (cachePut c addr (DCore rv)) bs)
      | Vector =>
          let rv := Vectorblock_Deserialize zero_Vectorblock trimbuf in
          let rv := stamp_vector rv addr impl_Generation impl_Pointwidth impl_StartTime in
          (Return (DVector rv), set_cache (cachePut c addr (DVector rv)) bs)
      | Bad => (Panic "Strange datablock type", set_cache c bs)
      end
  end.

(** ** Loading a superblock *)

Definition superblock_of (id : UUID) (sb : fake_sblock) : Superblock :=
  {| uuid := id; gen := Gen sb; root := Root sb; unlinked := Unlinked sb |}.

(** [LoadSuperblock(id, generation)]; [None] is the [nil] superblock. *)
Definition LoadSuperblock (bs : BlockStore) (id : UUID) (generation : Z)
  : Result (option Superblock) :=
  if bool_decide (generation = LatestGeneration) then
    let qry := Mgo.Find (db bs) (stream_selector id) in
    match Mgo.One (Mgo.Sort_gen_desc qry) with
    | Mgo.ErrNotFound => Return None
    | Mgo.MgoErr e => Panic e
    | Mgo.MgoOk sb => Return (Some (superblock_of id sb))
    end
  else
    let qry := Mgo.Find (db bs) (exact_selector id generation) in
    match Mgo.One qry with
    | Mgo.ErrNotFound => Return None
    | Mgo.MgoErr e => Panic e
    | Mgo.MgoOk sb => Return (Some (superblock_of id sb))
    end.

(** ** A generation's life as a sequence of calls *)

Inductive GenOp : Type :=
  | OpUpdateRootAddr (addr : Z)
  | OpUnreferenceBlock (vaddr : Z)
  | OpAllocateCoreblock
  | OpAllocateVectorblock
  | OpCommit.

(** The generation and the block store a call leaves behind, whatever it
    returned. *)
Definition apply_op (s : Generation * BlockStore) (op : GenOp)
  : Generation * BlockStore :=
  let '(g, bs) := s in
  match op with
  | OpUpdateRootAddr addr => (UpdateRootAddr g addr, bs)
  | OpUnreferenceBlock vaddr => (UnreferenceBlock g vaddr, bs)
  | OpAllocateCoreblock => let '(_, g', bs') := AllocateCoreblock g bs in (g', bs')
  | OpAllocateVectorblock => let '(_, g', bs') := AllocateVectorblock g bs in (g', bs')
  | OpCommit => let '(_, g', bs') := Commit g bs in (g', bs')
  end.

Definition apply_ops (ops : list GenOp) (s : Generation * BlockStore)
  : Generation * BlockStore :=
  fold_left apply_op ops s.

(** ** Tasks calling [ObtainGeneration] side by side *)

(** Where a task stands.  The steps are the stretches of [ObtainGeneration]
    between two lock operations: each runs under [glock] or touches one
    mutex, so tasks interleave at these points. *)
Inductive Task : Type :=
  | AtLookup (id : UUID)             (* lines 136-139: read the registry *)
  | AtCreate (id : UUID)             (* lines 142-143: no entry was seen *)
  | AtStore (id : UUID) (mtx : nat)  (* lines 144-146: publish the new mutex *)
  | AtLock (id : UUID) (mtx : nat)   (* line 148: lock the mutex that was seen *)
  | AtLoad (id : UUID)               (* lines 151-181: build the generation *)
  | Holding (g : Generation)         (* the call has returned [g] *)
  | Crashed (msg : string)
  | Finished.

(** The next step of a task; [None] when the task cannot move. *)
Definition task_step (bs : BlockStore) (t : Task) : option (BlockStore * Task) :=
  match t with
  | AtLookup id =>
      match _wlocks bs !! UUIDToMapKey id with
      | Some mtx => Some (bs, AtLock id mtx)
      | None => Some (bs, AtCreate id)
      end
  | AtCreate id =>
      let '(mtx, h) := Mutex_new (mutexes bs) in
      h' ← Mutex_Lock h mtx;
      Some (set_mutexes h' bs, AtStore id mtx)
  | AtStore id mtx =>
      Some (set_wlocks (<[UUIDToMapKey id := mtx]> (_wlocks bs)) bs, AtLoad id)
  | AtLock id mtx =>
      h' ← Mutex_Lock (mutexes bs) mtx;
      Some (set_mutexes h' bs, AtLoad id)
  | AtLoad id =>
      match load_generation bs id with
      | Return g => Some (bs, Holding g)
      | Panic msg => Some (bs, Crashed msg)
      | Blocks => None
      end
  | Holding g =>
      match Commit g bs with
      | (Return _, _, bs') => Some (bs', Finished)
      | (Panic msg, _, bs') => Some (bs', Crashed msg)
      | (Blocks, _, _) => None
      end
  | Crashed _ => None
  | Finished => None
  end.

Definition Config : Type := BlockStore * list Task.

(** Task [i] takes its next step. *)
Definition sched_step (cfg : Config) (i : nat) : option Config :=
  let '(bs, tasks) := cfg in
  t ← tasks !! i;
  '(bs', t') ← task_step bs t;
  Some (bs', <[i := t']> tasks).

(** A schedule names the task that moves at each step. *)
Fixpoint run_schedule (sched : list nat) (cfg : Config) : option Config :=
  match sched with
  | [] => Some cfg
  | i :: sched' => cfg' ← sched_step cfg i; run_schedule sched' cfg'
  end.

(** The task holds an open generation of stream [id]: [ObtainGeneration(id)]
    has returned to it and it has not committed. *)
Definition holds_open (id : UUID) (t : Task) : bool :=
  match t with
  | Holding g => bool_decide (Generation_Uuid g = id) && negb (flushed g)
  | _ => false
  end.

Definition open_generations (id : UUID) (tasks : list Task) : nat :=
  length (filter (λ t, Is_true (holds_open id t)) tasks).

(** ** Conditions on a block store *)

(** The write lock of stream [id] can be taken at once: the registry has no
    entry for the stream, or the mutex it names is not held. *)
Definition wlock_free (bs : BlockStore) (id : UUID) : Prop :=
  match _wlocks bs !! UUIDToMapKey id with
  | None => True
  | Some mtx => mutexes bs !! mtx = Some false
  end.

(** The superblock store records one root per stream and version: no two
    documents share both. *)
Definition sb_key (d : fake_sblock) : string * Z := (Uuid d, Gen d).

Definition sb_unique (c : Mgo.Collection) : Prop := NoDup (sb_key <$> c).

(** What [UnlinkGenerations(id, sgen, egen)] is to do to one document. *)
Definition in_unlink_range (id : UUID) (sgen egen : Z) (d : fake_sblock) : Prop :=
  Uuid d = uuid_String id ∧ sgen ≤ Gen d < egen.

#[global] Instance in_unlink_range_dec id sgen egen d :
  Decision (in_unlink_range id sgen egen d).
Proof. unfold in_unlink_range. apply _. Defined.


(** The documents of its iterator the loop of [UnlinkGenerations] gets
    through: those in front of the first one whose upsert the driver
    cannot encode. *)
Fixpoint upserted (docs : list fake_sblock) : list fake_sblock :=
  match docs with
  | [] => []
  | rs :: docs' => if Mgo.encodable_doc rs then rs :: upserted docs' else []
  end.

(** How the loop ends: it runs to the end of the iterator, or panics with
    the driver's error at the first document it cannot encode. *)
Definition loop_outcome (docs : list fake_sblock) : Result unit :=
  if forallb Mgo.encodable_doc docs then Return () else Panic Mgo.bson_uint64.

(** The mark on the documents [docs], where they lie in a collection. *)
Definition mark_docs (docs : list fake_sblock) (x : fake_sblock) : fake_sblock :=
  if decide (x ∈ docs) then mark_unlinked x else x.


(** The [n]-th address of the allocator's sequence, counting from 0: the
    addresses climb from the base and start over at the base after the
    largest [uint64]. *)
Definition nth_address (n : nat) : Z :=
  RELOCATION_BASE + Z.of_nat n mod (two64 - RELOCATION_BASE).

(** The allocator has handed out [k] addresses so far: the buffer holds the
    next ones in order, and the goroutine is about to send the one after. *)
Definition alloc_inv (k : nat) (al : Allocator) : Prop :=
  ∃ m : nat,
    chan al = nth_address <$> seq k m
    ∧ relocation_addr al = nth_address (k + m).

(** ** Removing a stream *)

(** [DEBUG_DELETE_UUID(id)]: [mgo.ErrNotFound] is logged and let pass, any
    other error panics. *)
Definition DEBUG_DELETE_UUID (bs : BlockStore) (id : UUID) : Result unit * BlockStore :=
  match Mgo.RemoveAll (db bs) (stream_selector id) with
  | Mgo.MgoOk c => (Return (), set_db c bs)
  | Mgo.ErrNotFound => (Return (), bs)
  | Mgo.MgoErr e => (Panic e, bs)
  end.

(** ** Further conditions *)

(** The addresses of the blocks a generation has pending. *)
Definition pending_addresses (g : Generation) : list Z :=
  (cb_Identifier <$> cblocks g) ++ (vb_Identifier <$> vblocks g).

(** What [UnlinkGenerations(id, sgen, egen)] may do to a document on any
    store: stream and version stay, a mark is never taken away, and a
    document outside the range is left as it is. *)
Definition unlink_frame (id : UUID) (sgen egen : Z) (d d' : fake_sblock) : Prop :=
  Uuid d' = Uuid d ∧ Gen d' = Gen d
  ∧ (Unlinked d = true → Unlinked d' = true)
  ∧ (¬ in_unlink_range id sgen egen d → d' = d).

(** The task is past the lock of its stream and has not committed. *)
Definition lock_holder (t : Task) : bool :=
  match t with
  | AtLoad _ => true
  | Holding _ => true
  | _ => false
  end.

Definition holders (tasks : list Task) : nat :=
  length (filter (λ t, Is_true (lock_holder t)) tasks).

(** The task works on stream [id] through the registered mutex [m]. *)
Definition task_uses (id : UUID) (m : nat) (t : Task) : Prop :=
  match t with
  | AtLookup i => i = id
  | AtCreate _ => False
  | AtStore _ _ => False
  | AtLock i m' => i = id ∧ m' = m
  | AtLoad i => i = id
  | Holding g => Generation_Uuid g = id ∧ flushed g = false
  | Crashed _ => True
  | Finished => True
  end.

(** The registry names [m] for stream [id], every task goes through it, and
    the mutex is held whenever a task is past it. *)
Definition lock_inv (id : UUID) (m : nat) (cfg : Config) : Prop :=
  _wlocks cfg.1 !! UUIDToMapKey id = Some m
  ∧ Forall (task_uses id m) cfg.2
  ∧ (holders cfg.2 ≤ 1)%nat
  ∧ ∃ b, mutexes cfg.1 !! m = Some b ∧ (b = false → holders cfg.2 = 0%nat).

(** ** One task committing generation after generation *)

(** [ObtainGeneration(id)], the calls [ops] on the generation, [Commit]:
    [None] unless the generation is obtained and the commit returns the
    address map. *)
Definition commit_cycle (id : UUID) (ops : list GenOp) (bs : BlockStore)
  : option BlockStore :=
  match ObtainGeneration bs id with
  | (Return g, bs1) =>
      match Commit (apply_ops ops (g, bs1)).1 (apply_ops ops (g, bs1)).2 with
      | (Return (Some _, None), _, bs2) => Some bs2
      | _ => None
      end
  | _ => None
  end.

Fixpoint commit_cycles (id : UUID) (cycles : list (list GenOp)) (bs : BlockStore)
  : option BlockStore :=
  match cycles with
  | [] => Some bs
  | ops :: cycles' => bs' ← commit_cycle id ops bs; commit_cycles id cycles' bs'
  end.

End Definitions.

(** ** A sample environment, for evaluating the definitions *)

Module Sample.

(** A plain hexadecimal rendering of the bytes, standing for [id.String()]. *)
Definition hex_digit (n : Z) : string :=
  match n with
  | 0 => "0" | 1 => "1" | 2 => "2" | 3 => "3" | 4 => "4" | 5 => "5" | 6 => "6"
  | 7 => "7" | 8 => "8" | 9 => "9" | 10 => "a" | 11 => "b" | 12 => "c"
  | 13 => "d" | 14 => "e" | _ => "f"
  end%string.

Fixpoint hex (id : UUID) : string :=
  match id with
  | [] => ""
  | b :: rest => hex_digit (b / 16) +:+ hex_digit (b mod 16) +:+ hex rest
  end%string.

(** A payload starts with its type tag: 2 for a core block, 1 for a vector
    block. *)
Definition buffer_type (buf : list Z) : BlockType :=
  match buf with
  | 2 :: _ => Core
  | 1 :: _ => Vector
  | _ => Bad
  end.

(** Where the linker of the sample puts the blocks it is given: it packs
    them behind the blocks the storage holds already, from address 4096 on,
    in the order it is given them. *)
Definition final_addresses (disk : gmap Z (list Z)) (ids : list Z) : list (Z * Z) :=
  imap (λ i a, (a, Z.of_nat (size disk + i) + 4096)) ids.

(** A linker that moves every pending block to its final address and
    writes its tagged payload there. *)
Definition link (disk : gmap Z (list Z)) (vbs : list Vectorblock)
    (cbs : list Coreblock) : gmap Z Z * gmap Z (list Z) :=
  let ids := (vb_Identifier <$> vbs) ++ (cb_Identifier <$> cbs) in
  let payloads :=
    ((λ vb, 1 :: vb_payload vb) <$> vbs) ++ ((λ cb, 2 :: cb_payload cb) <$> cbs) in
  let placed := final_addresses disk ids in
  (list_to_map placed,
   foldr (λ e d, <[e.1 := e.2]> d) disk (zip placed.*2 payloads)).

#[local] Instance env : Collaborators := {|
  uuid_String := hex;
  Storage := gmap Z (list Z);
  Read := λ disk addr, default [] (disk !! addr);
  LinkAndStore := link;
  DatablockGetBufferType := buffer_type;
  Coreblock_Deserialize := λ rv buf,
    mkCoreblock (cb_Identifier rv) (cb_Generation rv) (cb_PointWidth rv)
      (cb_StartTime rv) (tail buf);
  Vectorblock_Deserialize := λ rv buf,
    mkVectorblock (vb_Identifier rv) (vb_Generation rv) (vb_PointWidth rv)
      (vb_StartTime rv) (tail buf);
  RELOCATION_BASE := 0xFF00000000000000
|}.

(** The stream of the examples. *)
Definition S1 : UUID := [1; 2; 3; 4; 5; 6; 7; 8; 9; 10; 11; 12; 13; 14; 15; 16].

(** A block store just constructed over the documents [docs] and the storage
    [disk], with room for [cachesize] cached blocks. *)
Definition fresh (docs : Mgo.Collection) (cachesize : Z) (disk : gmap Z (list Z))
  : BlockStore :=
  {| db := docs; mutexes := []; _wlocks := ∅; cache := initCache cachesize;
     store := disk; alloc := alloc_fresh |}.

(** Stream [S1] with versions 1 to 6 committed. *)
Definition six_versions : Mgo.Collection :=
  (λ g, mk_fake_sblock (hex S1) g (100 + g) false) <$> [1; 2; 3; 4; 5; 6].

(** A block store over these six versions, and the generation a task has
    obtained on it for [S1], with one core block allocated and made the
    root, and one address unreferenced. *)
Definition bs_six : BlockStore := fresh six_versions 4 ∅.

Definition first_address : Z := 0xFF00000000000000.

(** The final address the linker gives the first block it ever places. *)
Definition first_final : Z := 4096.

Definition pending : Generation * BlockStore :=
  match ObtainGeneration bs_six S1 with
  | (Return g, bs) =>
      apply_ops
        [OpAllocateCoreblock; OpUpdateRootAddr first_address; OpUnreferenceBlock 77]
        (g, bs)
  | (_, bs) => (open_generation (NewSuperblock S1), bs)
  end.

(** What [ObtainGeneration] answers on [bs_six] for [S1]. *)
Definition obtained_gen : Generation :=
  open_generation {| uuid := S1; gen := 6; root := 106; unlinked := false |}.

Definition obtained_bs : BlockStore := (ObtainGeneration bs_six S1).2.

(** Two tasks that have raced through [ObtainGeneration] for [S1] on an
    empty store, and what the store holds once each has allocated a core
    block, made it the root and committed. *)
Definition raced : option Config :=
  run_schedule [0; 1; 0; 1; 0; 1; 0; 1]%nat (fresh [] 4 ∅, [AtLookup S1; AtLookup S1]).

Definition raced_commits : option (Generation * BlockStore) :=
  match raced with
  | Some (bs, [Holding g1; Holding g2]) =>
      let s1 :=
        apply_ops [OpAllocateCoreblock; OpUpdateRootAddr first_address; OpCommit]
          (g1, bs) in
      Some (apply_ops
              [OpAllocateCoreblock; OpUpdateRootAddr (first_address + 1); OpCommit]
              (g2, s1.2))
  | _ => None
  end.

(** A storage with one core block at address 7, and a block store just
    built over it. *)
Definition disk_7 : gmap Z (list Z) := {[ 7 := [2; 42] ]}.

Definition bs_7 : BlockStore := fresh [] 4 disk_7.

(** The calls made on the pending generation of the sample, and its
    commit. *)
Definition pending_ops : list GenOp :=
  [OpAllocateCoreblock; OpUpdateRootAddr first_address; OpUnreferenceBlock 77].

Definition committed
  : Result (option (gmap Z Z) * option string) * Generation * BlockStore :=
  Commit (apply_ops pending_ops (obtained_gen, obtained_bs)).1
    (apply_ops pending_ops (obtained_gen, obtained_bs)).2.

(** The commit of the generation as it was obtained: its root, 106, is the
    address of no pending block. *)
Definition committed_at_once
  : Result (option (gmap Z Z) * option string) * Generation * BlockStore :=
  Commit obtained_gen obtained_bs.

(** A second stream. *)
Definition S2 : UUID := [16; 15; 14; 13; 12; 11; 10; 9; 8; 7; 6; 5; 4; 3; 2; 1].

(** Two generations in a row on [S1], each with one core block as root. *)
Definition two_cycles : list (list GenOp) :=
  [[OpAllocateCoreblock; OpUpdateRootAddr first_address];
   [OpAllocateCoreblock; OpUpdateRootAddr (first_address + 1)]].

Definition after_two_cycles : BlockStore :=
  default bs_six (commit_cycles S1 two_cycles bs_six).

(** A block store whose registry holds a free mutex for [S1], and two tasks
    on it: the first has obtained a generation, the second has seen the
    mutex and waits. *)
Definition bs_registered : BlockStore :=
  set_mutexes [false] (set_wlocks {[ UUIDToMapKey S1 := 0%nat ]} (fresh [] 4 ∅)).

Definition one_past_the_lock : Config :=
  default (bs_registered, [])
    (run_schedule [0; 1; 0; 0]%nat (bs_registered, replicate 2 (AtLookup S1))).


(** A block store whose latest version of [S1] is the last one the driver
    can encode, and the generation a task obtains on it. *)
Definition last_storable : BlockStore :=
  fresh [mk_fake_sblock (hex S1) (2 ^ 63 - 1) 100 false] 4 ∅.

Definition past_storable : Result Generation * BlockStore :=
  ObtainGeneration last_storable S1.

Definition refused_gen : Generation :=
  open_generation {| uuid := S1; gen := 2 ^ 63 - 1; root := 100; unlinked := false |}.

(** The commit of that generation, with one core block as its root. *)
Definition refused
  : Result (option (gmap Z Z) * option string) * Generation * BlockStore :=
  Commit (apply_ops pending_ops (refused_gen, past_storable.2)).1
    (apply_ops pending_ops (refused_gen, past_storable.2)).2.


End Sample.

(** * Properties *)

Section Properties.
Context `{Collab : Collaborators}.

(** ** The metadata store *)

Lemma LatestGeneration_value : LatestGeneration = 2 ^ 64 - 1.
Proof. reflexivity. Qed.

#[local] Instance gen_desc_total : Total Mgo.gen_desc.
Proof. intros a b. unfold Mgo.gen_desc. lia. Qed.

#[local] Instance gen_desc_trans : Transitive Mgo.gen_desc.
Proof. intros a b c. unfold Mgo.gen_desc. lia. Qed.

Lemma elem_of_matching (c : Mgo.Collection) (q : Mgo.selector) (d : fake_sblock) :
  d ∈ Mgo.matching c q ↔ Mgo.matches q d = true ∧ d ∈ c.
Proof.
  unfold Mgo.matching. rewrite list_elem_of_filter, Is_true_true. tauto.
Qed.

Lemma matches_spec (q : Mgo.selector) (d : fake_sblock) :
  Mgo.matches q d = true ↔
  Uuid d = Mgo.sel_uuid q
  ∧ Mgo.gen_ok (Mgo.sel_gen q) (Gen d) = true
  ∧ Mgo.unlinked_ok (Mgo.sel_unlinked q) (Unlinked d) = true.
Proof.
  unfold Mgo.matches. rewrite !andb_true_iff, bool_decide_eq_true. tauto.
Qed.

Lemma encodable_spec (v : Z) : Mgo.encodable v = true ↔ v < 2 ^ 63.
Proof. unfold Mgo.encodable. apply bool_decide_eq_true. Qed.

Lemma encodable_doc_spec (d : fake_sblock) :
  Mgo.encodable_doc d = true ↔ Gen d < 2 ^ 63 ∧ Root d < 2 ^ 63.
Proof.
  unfold Mgo.encodable_doc. by rewrite andb_true_iff, !encodable_spec.
Qed.

(** A query whose selector the driver can encode is answered with the
    matching documents; any other is answered with the encoder's error. *)
Lemma Find_encodable (c : Mgo.Collection) (q : Mgo.selector) :
  Mgo.encodable_selector q = true → Mgo.Find c q = Mgo.MgoOk (Mgo.matching c q).
Proof. intros Hq. unfold Mgo.Find. by rewrite Hq. Qed.

Lemma Find_not_encodable (c : Mgo.Collection) (q : Mgo.selector) :
  Mgo.encodable_selector q = false → Mgo.Find c q = Mgo.MgoErr Mgo.bson_uint64.
Proof. intros Hq. unfold Mgo.Find. by rewrite Hq. Qed.

(** What [Sort("-gen").One] answers: a document of the largest version. *)
Lemma One_Sort_gen_desc (docs : list fake_sblock) :
  match Mgo.One (Mgo.Sort_gen_desc (Mgo.MgoOk docs)) with
  | Mgo.MgoOk d => d ∈ docs ∧ ∀ d', d' ∈ docs → Gen d' ≤ Gen d
  | Mgo.ErrNotFound => docs = []
  | Mgo.MgoErr _ => False
  end.
Proof.
  unfold Mgo.Sort_gen_desc, Mgo.One.
  pose proof (merge_sort_Permutation Mgo.gen_desc docs) as Hperm.
  pose proof (StronglySorted_merge_sort Mgo.gen_desc docs) as Hsorted.
  destruct (merge_sort Mgo.gen_desc docs) as [|d rest]; simpl.
  - by apply Permutation_nil in Hperm.
  - split.
    + rewrite <- Hperm. left.
    + intros d' Hd'. rewrite <- Hperm in Hd'.
      apply StronglySorted_inv in Hsorted as [_ Hall].
      apply elem_of_cons in Hd' as [->|Hd']; [lia|].
      rewrite Forall_forall in Hall. by apply Hall.
Qed.

(** The query for the latest record of a stream holds no [uint64]: it
    cannot fail, and answers a record of the stream's largest version. *)
Lemma One_latest (c : Mgo.Collection) (id : UUID) :
  match Mgo.One (Mgo.Sort_gen_desc (Mgo.Find c (stream_selector id))) with
  | Mgo.MgoOk d =>
      d ∈ Mgo.matching c (stream_selector id)
      ∧ ∀ d', d' ∈ Mgo.matching c (stream_selector id) → Gen d' ≤ Gen d
  | Mgo.ErrNotFound => Mgo.matching c (stream_selector id) = []
  | Mgo.MgoErr _ => False
  end.
Proof. apply (One_Sort_gen_desc (Mgo.matching c (stream_selector id))). Qed.

(** What [One] answers on an unsorted query: the first match, or the
    encoder's error when the selector holds a version from [2^63] on. *)
Lemma One_Find (c : Mgo.Collection) (q : Mgo.selector) :
  match Mgo.One (Mgo.Find c q) with
  | Mgo.MgoOk d =>
      Mgo.encodable_selector q = true ∧ Mgo.matches q d = true ∧ d ∈ c
      ∧ Mgo.matching c q !! 0%nat = Some d
  | Mgo.ErrNotFound =>
      Mgo.encodable_selector q = true ∧ ∀ d, d ∈ c → Mgo.matches q d = false
  | Mgo.MgoErr e => Mgo.encodable_selector q = false ∧ e = Mgo.bson_uint64
  end.
Proof.
  unfold Mgo.Find. destruct (Mgo.encodable_selector q); [|done]. simpl.
  destruct (Mgo.matching c q) as [|d rest] eqn:Hfind; simpl.
  - split; [done|]. intros d Hd. destruct (Mgo.matches q d) eqn:Hm; [|done].
    assert (d ∈ Mgo.matching c q) as Hin by (apply elem_of_matching; done).
    rewrite Hfind in Hin. by apply not_elem_of_nil in Hin.
  - assert (d ∈ Mgo.matching c q) as [Hm Hd]%elem_of_matching
      by (rewrite Hfind; left).
    done.
Qed.

Lemma matches_stream_selector (id : UUID) (d : fake_sblock) :
  Mgo.matches (stream_selector id) d = true ↔ Uuid d = uuid_String id.
Proof. rewrite matches_spec. simpl. tauto. Qed.

Lemma matches_exact_selector (id : UUID) (g : Z) (d : fake_sblock) :
  Mgo.matches (exact_selector id g) d = true ↔ Uuid d = uuid_String id ∧ Gen d = g.
Proof. rewrite matches_spec. simpl. rewrite bool_decide_eq_true. tauto. Qed.

Lemma matches_unlink_selector (id : UUID) (sgen egen : Z) (d : fake_sblock) :
  Mgo.matches (unlink_selector id sgen egen) d = true ↔
  Uuid d = uuid_String id ∧ sgen ≤ Gen d < egen ∧ Unlinked d = false.
Proof.
  rewrite matches_spec. simpl.
  rewrite andb_true_iff, !bool_decide_eq_true. tauto.
Qed.

(** C10 (amended). [LoadSuperblock] reads the version argument [2^64 - 1],
    the value of [LatestGeneration], as the query for the latest version:
    the answer is the record of the stream with the largest version,
    whatever that version is, and [nil] only when the stream has no record
    at all; so no call looks a record up by the exact version [2^64 - 1].
    For every other version below [2^63] the answer is a record of exactly
    that stream and version, and [nil] when the store holds none.  For a
    version from [2^63] to [2^64 - 2] the driver cannot encode the query and
    [LoadSuperblock] panics with the driver's error, whatever the store
    holds. *)
Theorem LoadSuperblock_latest_or_exact (bs : BlockStore) (id : UUID) (generation : Z) :
  LatestGeneration = 2 ^ 64 - 1
  ∧ match LoadSuperblock bs id generation with
    | Return None =>
        (generation = 2 ^ 64 - 1 →
           ∀ d, d ∈ db bs → Uuid d ≠ uuid_String id)
        ∧ (generation ≠ 2 ^ 64 - 1 →
           generation < 2 ^ 63
           ∧ ∀ d, d ∈ db bs → ¬ (Uuid d = uuid_String id ∧ Gen d = generation))
    | Return (Some sb) =>
        ∃ d, d ∈ db bs ∧ Uuid d = uuid_String id ∧ sb = superblock_of id d
          ∧ (generation = 2 ^ 64 - 1 →
               ∀ d', d' ∈ db bs → Uuid d' = uuid_String id → Gen d' ≤ Gen d)
          ∧ (generation ≠ 2 ^ 64 - 1 → generation < 2 ^ 63 ∧ Gen d = generation)
    | Panic e =>
        generation ≠ 2 ^ 64 - 1 ∧ 2 ^ 63 ≤ generation ∧ e = Mgo.bson_uint64
    | Blocks => False
    end.
Proof.
  split; [reflexivity|].
  unfold LoadSuperblock. rewrite LatestGeneration_value.
  case_bool_decide as Hg.
  - pose proof (One_latest (db bs) id) as Hone.
    destruct (Mgo.One _) as [d| |e]; [|split; [|done]|done].
    + destruct Hone as [Hd Hmax].
      apply elem_of_matching in Hd as [Hm Hd].
      apply matches_stream_selector in Hm.
      exists d. do 3 (split; [done|]). split; [|done].
      intros _ d' Hd' Hu. apply Hmax, elem_of_matching.
      split; [by apply matches_stream_selector|done].
    + intros _ d Hd Hu.
      assert (d ∈ Mgo.matching (db bs) (stream_selector id)) as Hin.
      { apply elem_of_matching. split; [by apply matches_stream_selector|done]. }
      rewrite Hone in Hin. by apply not_elem_of_nil in Hin.
  - pose proof (One_Find (db bs) (exact_selector id generation)) as Hone.
    destruct (Mgo.One _) as [d| |e].
    + destruct Hone as (Henc & Hm & Hd & _).
      apply matches_exact_selector in Hm as [Hu Hgen].
      apply encodable_spec in Henc.
      exists d. do 3 (split; [done|]). split; [done|]. by intros _.
    + destruct Hone as [Henc Hone]. apply encodable_spec in Henc.
      split; [done|]. intros _. split; [done|].
      intros d Hd Hm. apply matches_exact_selector in Hm.
      specialize (Hone d Hd). congruence.
    + destruct Hone as [Henc ->]. split; [done|]. split; [|done].
      destruct (decide (generation < 2 ^ 63)) as [Hlt|]; [|lia].
      apply encodable_spec in Hlt. unfold Mgo.encodable_selector in Henc.
      simpl in Henc. congruence.
Qed.

(** ** Obtaining a generation *)

Lemma Mutex_Lock_new (h : MutexHeap) :
  Mutex_Lock (Mutex_new h).2 (Mutex_new h).1 = Some (h ++ [true]).
Proof.
  unfold Mutex_Lock, Mutex_new, MutexHeap in *. simpl.
  rewrite (lookup_app_r h [false]), Nat.sub_diag by done. simpl.
  rewrite (insert_app_r_alt h [false]), Nat.sub_diag by done. done.
Qed.

(** With the write lock free, [ObtainGeneration] returns what
    [load_generation] builds from the store, and the store keeps its
    documents. *)
Lemma ObtainGeneration_returns (bs : BlockStore) (id : UUID) :
  wlock_free bs id →
  ∃ bs', ObtainGeneration bs id = (load_generation bs id, bs') ∧ db bs' = db bs.
Proof.
  unfold wlock_free, ObtainGeneration. intros Hfree.
  destruct (_wlocks bs !! UUIDToMapKey id) as [mtx|].
  - unfold Mutex_Lock. rewrite Hfree. eauto.
  - pose proof (Mutex_Lock_new (mutexes bs)) as Hlock.
    destruct (Mutex_new (mutexes bs)) as [mtx h]. simpl in Hlock.
    rewrite Hlock. eauto.
Qed.

Lemma load_generation_versions (bs : BlockStore) (id : UUID) (g : Generation) :
  load_generation bs id = Return g →
  gen (New_SB g) = wrap64 (gen (Cur_SB g) + 1)
  ∧ uuid (Cur_SB g) = id ∧ uuid (New_SB g) = id ∧ flushed g = false.
Proof.
  unfold load_generation.
  destruct (Mgo.One _) as [rs| |e]; intros [= <-]; done.
Qed.

Lemma ObtainGeneration_inv (bs bs' : BlockStore) (id : UUID) (g : Generation) :
  ObtainGeneration bs id = (Return g, bs') →
  load_generation bs id = Return g ∧ db bs' = db bs.
Proof.
  unfold ObtainGeneration.
  destruct (_wlocks bs !! UUIDToMapKey id) as [mtx|].
  - destruct (Mutex_Lock _ _); [|done]. intros [= Hg <-]. done.
  - destruct (Mutex_new _) as [mtx h]. destruct (Mutex_Lock _ _); [|done].
    intros [= Hg <-]. done.
Qed.

(** C8. For a stream with no superblock record in the metadata store,
    [ObtainGeneration] returns (once the stream's write lock is free) a
    generation whose current superblock has version 0 and no root, and
    whose pending superblock has version 1. *)
Theorem ObtainGeneration_new_stream (bs : BlockStore) (id : UUID) :
  (∀ d, d ∈ db bs → Uuid d ≠ uuid_String id) →
  wlock_free bs id →
  ∃ g bs',
    ObtainGeneration bs id = (Return g, bs')
    ∧ uuid (Cur_SB g) = id ∧ gen (Cur_SB g) = 0 ∧ root (Cur_SB g) = 0
    ∧ gen (New_SB g) = 1
    ∧ flushed g = false.
Proof.
  intros Hnone Hfree.
  destruct (ObtainGeneration_returns bs id Hfree) as (bs' & Hog & _).
  exists (open_generation (NewSuperblock id)), bs'.
  split; [|done].
  rewrite Hog. f_equal. unfold load_generation.
  pose proof (One_latest (db bs) id) as Hone.
  destruct (Mgo.One _) as [d| |e]; [|done..].
  destruct Hone as [Hd _]. apply elem_of_matching in Hd as [Hm Hd].
  apply matches_stream_selector in Hm. by destruct (Hnone d Hd).
Qed.

(** ** The versions of a generation *)

Lemma Commit_versions (g : Generation) (bs : BlockStore) :
  gen (Cur_SB (Commit g bs).1.2) = gen (Cur_SB g)
  ∧ gen (New_SB (Commit g bs).1.2) = gen (New_SB g).
Proof.
  unfold Commit.
  destruct (flushed g); [done|].
  destruct (LinkAndStore _ _ _) as [address_map disk]. simpl.
  destruct (address_map !! root (New_SB g)) as [rootaddr|]; [|done]. simpl.
  unfold Mgo.Insert. destruct (Mgo.encodable_doc _); [|done]. simpl.
  destruct (_wlocks bs !! _) as [mtx|]; [|done].
  destruct (Mutex_Unlock _ _); done.
Qed.

Lemma apply_op_versions (g : Generation) (bs : BlockStore) (op : GenOp) :
  gen (Cur_SB (apply_op (g, bs) op).1) = gen (Cur_SB g)
  ∧ gen (New_SB (apply_op (g, bs) op).1) = gen (New_SB g).
Proof.
  destruct op; simpl; try done.
  - unfold AllocateCoreblock. by destruct (allocateBlock bs).
  - unfold AllocateVectorblock. by destruct (allocateBlock bs).
  - pose proof (Commit_versions g bs) as Hc.
    by destruct (Commit g bs) as [[r g'] bs'].
Qed.

Lemma apply_ops_versions (ops : list GenOp) (g : Generation) (bs : BlockStore) :
  gen (Cur_SB (apply_ops ops (g, bs)).1) = gen (Cur_SB g)
  ∧ gen (New_SB (apply_ops ops (g, bs)).1) = gen (New_SB g).
Proof.
  revert g bs. induction ops as [|op ops IH]; intros g bs; [done|].
  unfold apply_ops in *. cbn [fold_left].
  pose proof (apply_op_versions g bs op) as [Hcur Hnew].
  destruct (apply_op (g, bs) op) as [g1 bs1].
  destruct (IH g1 bs1) as [IHcur IHnew]. simpl in *. split; congruence.
Qed.

(** C5. From the moment [ObtainGeneration] returns it, and after any
    sequence of [UpdateRootAddr], [UnreferenceBlock], [AllocateCoreblock],
    [AllocateVectorblock] and [Commit] calls, a generation has the two
    versions it was created with, and the pending one is the current one
    plus one as the source computes it, [New_SB.gen == Cur_SB.gen + 1] on
    [uint64]; below the largest [uint64] that is the successor. *)
Theorem pending_version_is_current_plus_one (bs bs1 : BlockStore) (id : UUID)
    (g : Generation) (ops : list GenOp) :
  ObtainGeneration bs id = (Return g, bs1) →
  let g' := (apply_ops ops (g, bs1)).1 in
  gen (Cur_SB g') = gen (Cur_SB g)
  ∧ gen (New_SB g') = gen (New_SB g)
  ∧ gen (New_SB g') = wrap64 (gen (Cur_SB g') + 1)
  ∧ (0 ≤ gen (Cur_SB g') < 2 ^ 64 - 1 → gen (New_SB g') = gen (Cur_SB g') + 1).
Proof.
  intros Hog g'.
  apply ObtainGeneration_inv in Hog as [Hload _].
  apply load_generation_versions in Hload as (Hinit & _).
  destruct (apply_ops_versions ops g bs1) as [Hcur Hnew].
  fold g' in Hcur, Hnew.
  assert (gen (New_SB g') = wrap64 (gen (Cur_SB g') + 1)) as Hinv by congruence.
  repeat split; [done..|].
  intros Hrange. rewrite Hinv. unfold wrap64, two64.
  apply Z.mod_small. lia.
Qed.

(** ** Committing *)

Lemma Commit_flushed (g : Generation) (bs : BlockStore) :
  flushed g = true →
  Commit g bs = (Return (None, Some "Already Flushed"%string), g, bs).
Proof. intros Hf. unfold Commit. by rewrite Hf. Qed.

Lemma Commit_success_inv (g g1 : Generation) (bs bs1 : BlockStore)
    (address_map : gmap Z Z) :
  Commit g bs = (Return (Some address_map, None), g1, bs1) →
  flushed g = false ∧ flushed g1 = true.
Proof.
  unfold Commit.
  destruct (flushed g); [done|].
  destruct (LinkAndStore _ _ _) as [amap disk]. simpl.
  destruct (amap !! root (New_SB g)) as [rootaddr|]; [|done]. simpl.
  unfold Mgo.Insert. destruct (Mgo.encodable_doc _); [|done]. simpl.
  destruct (_wlocks bs !! _) as [mtx|]; [|done].
  destruct (Mutex_Unlock _ _); [|done].
  by intros [= _ <- _].
Qed.

(** [Commit] goes through when the linker resolves the pending root, the
    driver can encode the record, and the generation holds the stream's
    write lock. *)
Lemma Commit_succeeds (g : Generation) (bs : BlockStore) (rootaddr : Z) (mtx : nat) :
  flushed g = false →
  (LinkAndStore (store bs) (vblocks g) (cblocks g)).1 !! root (New_SB g)
    = Some rootaddr →
  gen (New_SB g) < 2 ^ 63 → rootaddr < 2 ^ 63 →
  _wlocks bs !! UUIDToMapKey (Generation_Uuid g) = Some mtx →
  mutexes bs !! mtx = Some true →
  ∃ g' bs',
    Commit g bs
      = (Return (Some (LinkAndStore (store bs) (vblocks g) (cblocks g)).1, None),
         g', bs')
    ∧ flushed g' = true
    ∧ mutexes bs' = <[mtx := false]> (mutexes bs).
Proof.
  intros Hf Hroot Hgen Haddr Hreg Hheld. unfold Commit. rewrite Hf.
  destruct (LinkAndStore _ _ _) as [amap disk]. simpl in *.
  rewrite Hroot. simpl.
  unfold Mgo.Insert.
  rewrite (proj2 (encodable_doc_spec _)) by (simpl; lia). simpl.
  unfold Generation_Uuid in *. simpl. rewrite Hreg.
  unfold Mutex_Unlock. simpl. rewrite Hheld. eauto.
Qed.

(** C2. Once [Commit] has succeeded on a generation, a second [Commit]
    returns the error ["Already Flushed"] and no address map, and leaves the
    generation and the whole block store, the superblock records among it,
    as they were. *)
Theorem Commit_twice_fails (g g1 : Generation) (bs bs1 bs2 : BlockStore)
    (address_map : gmap Z Z) :
  Commit g bs = (Return (Some address_map, None), g1, bs1) →
  Commit g1 bs2 = (Return (None, Some "Already Flushed"%string), g1, bs2)
  ∧ db (Commit g1 bs2).2 = db bs2.
Proof.
  intros Hfirst. apply Commit_success_inv in Hfirst as [_ Hf].
  by rewrite (Commit_flushed g1 bs2 Hf).
Qed.

(** C9. On a generation not yet committed: if the address map of the
    linker lacks the pending root, [Commit] panics with ["Could not obtain
    root address"], no record having been inserted and the generation still
    unflushed; if the map resolves the pending root, the pending superblock
    takes the resolved address before the insertion, and the record
    inserted is the one of the pending version with that address as its
    root.  The insertion is refused by the driver, and [Commit] panics with
    the driver's error and no record, when the pending version or the
    resolved address is [2^63] or larger. *)
Theorem Commit_root_resolution (g : Generation) (bs : BlockStore) :
  flushed g = false →
  match (LinkAndStore (store bs) (vblocks g) (cblocks g)).1 !! root (New_SB g) with
  | None =>
      ∃ g' bs',
        Commit g bs = (Panic "Could not obtain root address", g', bs')
        ∧ db bs' = db bs ∧ flushed g' = false
  | Some rootaddr =>
      ∃ r g' bs',
        Commit g bs = (r, g', bs')
        ∧ root (New_SB g') = rootaddr
        ∧ (r ≠ Panic "Could not obtain root address")
        ∧ (gen (New_SB g) < 2 ^ 63 ∧ rootaddr < 2 ^ 63 →
           db bs' = db bs ++ [ {| Uuid := uuid_String (uuid (New_SB g));
                                   Gen := gen (New_SB g);
                                   Root := rootaddr;
                                   Unlinked := false |} ])
        ∧ (¬ (gen (New_SB g) < 2 ^ 63 ∧ rootaddr < 2 ^ 63) →
           r = Panic Mgo.bson_uint64 ∧ db bs' = db bs ∧ flushed g' = false)
  end.
Proof.
  intros Hf. unfold Commit. rewrite Hf.
  destruct (LinkAndStore _ _ _) as [amap disk]. simpl.
  destruct (amap !! root (New_SB g)) as [rootaddr|]; simpl; [|by eauto 10].
  unfold Mgo.Insert.
  destruct (Mgo.encodable_doc _) eqn:Henc; simpl.
  - apply encodable_doc_spec in Henc. simpl in Henc.
    destruct (_wlocks bs !! _) as [mtx|]; [destruct (Mutex_Unlock _ _)|];
      (do 3 eexists; split; [reflexivity|]; simpl;
       split; [done|]; split; [done|]; split; [done|];
       intros Hno; by destruct Hno).
  - assert (¬ (gen (New_SB g) < 2 ^ 63 ∧ rootaddr < 2 ^ 63)) as Hno.
    { intros Hyes.
      apply (encodable_doc_spec (superblock_doc (set_root rootaddr (New_SB g))))
        in Hyes.
      congruence. }
    do 3 eexists. split; [reflexivity|]. simpl.
    split; [done|]. split; [done|]. split; [done|]. by intros _.
Qed.

Lemma foldl_UnreferenceBlock (vaddrs : list Z) (g : Generation) :
  foldl UnreferenceBlock g vaddrs
  = mkGeneration (Cur_SB g) (New_SB g) (cblocks g) (vblocks g)
      (unref_vaddrs g ++ vaddrs) (flushed g).
Proof.
  revert g. induction vaddrs as [|a vaddrs IH]; intros g; simpl.
  - rewrite app_nil_r. by destruct g.
  - rewrite IH. simpl. by rewrite <- app_assoc.
Qed.

(** C3 (what the code does). The addresses given to [UnreferenceBlock] are
    kept in the generation, but nothing [Commit] returns or leaves in the
    block store depends on them: the superblock records and the storage are
    the same as without them.  A [fake_sblock] has no field for the list. *)
Theorem Commit_forgets_unreferenced (g : Generation) (bs : BlockStore)
    (vaddrs : list Z) :
  let g' := foldl UnreferenceBlock g vaddrs in
  unref_vaddrs g' = unref_vaddrs g ++ vaddrs
  ∧ (Commit g' bs).1.1 = (Commit g bs).1.1
  ∧ (Commit g' bs).2 = (Commit g bs).2.
Proof.
  intros g'. subst g'. rewrite foldl_UnreferenceBlock. split; [done|].
  unfold Commit. simpl.
  destruct (flushed g); [done|].
  destruct (LinkAndStore _ _ _) as [amap disk]. simpl.
  destruct (amap !! root (New_SB g)) as [rootaddr|]; [|done]. simpl.
  unfold Mgo.Insert. destruct (Mgo.encodable_doc _); [|done]. simpl.
  unfold Generation_Uuid. simpl.
  destruct (_wlocks bs !! _) as [mtx|]; [|done].
  destruct (Mutex_Unlock _ _); done.
Qed.

(** ** Unlinking *)

Lemma sb_unique_inj (c : Mgo.Collection) (x y : fake_sblock) :
  sb_unique c → x ∈ c → y ∈ c → sb_key x = sb_key y → x = y.
Proof.
  unfold sb_unique. induction c as [|a c IH]; intros Hnd Hx Hy Hk.
  - by apply elem_of_nil in Hx.
  - rewrite fmap_cons in Hnd. apply NoDup_cons in Hnd as [Ha Hnd].
    apply elem_of_cons in Hx as [->|Hx]; apply elem_of_cons in Hy as [->|Hy].
    + done.
    + exfalso. apply Ha. rewrite Hk. by apply list_elem_of_fmap_2.
    + exfalso. apply Ha. rewrite <- Hk. by apply list_elem_of_fmap_2.
    + by apply IH.
Qed.

Lemma sb_unique_NoDup (c : Mgo.Collection) : sb_unique c → NoDup c.
Proof. apply NoDup_fmap_1. Qed.

(** With one document per stream and version, the upsert of
    [UnlinkGenerations] rewrites the document it was given, in place. *)
Lemma update_first_unique (id : UUID) (c : Mgo.Collection) (d d' : fake_sblock) :
  sb_unique c → d ∈ c → Uuid d = uuid_String id →
  Mgo.update_first (exact_selector id (Gen d)) d' c
  = Some ((λ x, if decide (x = d) then d' else x) <$> c).
Proof.
  induction c as [|a c IH]; intros Hu Hd Hid.
  - by apply elem_of_nil in Hd.
  - cbn [Mgo.update_first]. rewrite fmap_cons.
    destruct (Mgo.matches _ a) eqn:Hm.
    + apply matches_exact_selector in Hm as [Hua Hga].
      assert (a = d) as ->.
      { apply (sb_unique_inj (a :: c)); [done|left|done|].
        unfold sb_key. congruence. }
      rewrite decide_True by done. do 2 f_equal.
      rewrite <- (list_fmap_id c) at 1.
      apply list_fmap_ext. intros i x Hix. rewrite decide_False; [done|].
      intros ->. apply sb_unique_NoDup, NoDup_cons in Hu as [Hnot _].
      apply Hnot. by eapply list_elem_of_lookup_2.
    + assert (a ≠ d) as Hne.
      { intros ->.
        assert (Mgo.matches (exact_selector id (Gen d)) d = true) as Hm'
          by (by apply matches_exact_selector).
        congruence. }
      apply elem_of_cons in Hd as [->|Hd]; [done|].
      unfold sb_unique in Hu. rewrite fmap_cons in Hu.
      apply NoDup_cons in Hu as [_ Hu].
      rewrite IH by done. by destruct (decide (a = d)).
Qed.

Lemma sb_key_mark_unlinked (d : fake_sblock) : sb_key (mark_unlinked d) = sb_key d.
Proof. done. Qed.


(** The driver can encode the upsert of the loop exactly when it can
    encode the document the iterator handed over. *)
Lemma Upsert_guard (id : UUID) (rs : fake_sblock) :
  Mgo.encodable_selector (exact_selector id (Gen rs))
  && Mgo.encodable_doc (mark_unlinked rs)
  = Mgo.encodable_doc rs.
Proof.
  unfold Mgo.encodable_selector, Mgo.encodable_doc. simpl.
  by destruct (Mgo.encodable (Gen rs)), (Mgo.encodable (Root rs)).
Qed.

(** The iterator of a query: the matching documents, or nothing when the
    driver could not encode the selector. *)
Lemma Iter_Find (c : Mgo.Collection) (q : Mgo.selector) :
  Mgo.Iter (Mgo.Find c q)
  = if Mgo.encodable_selector q then Mgo.matching c q else [].
Proof. unfold Mgo.Find. by destruct (Mgo.encodable_selector q). Qed.

Lemma elem_of_Iter_Find (c : Mgo.Collection) (q : Mgo.selector) (d : fake_sblock) :
  d ∈ Mgo.Iter (Mgo.Find c q) →
  Mgo.encodable_selector q = true ∧ Mgo.matches q d = true ∧ d ∈ c.
Proof.
  rewrite Iter_Find. destruct (Mgo.encodable_selector q).
  - by intros ?%elem_of_matching.
  - by intros ?%elem_of_nil.
Qed.

Lemma NoDup_Iter_Find (c : Mgo.Collection) (q : Mgo.selector) :
  NoDup c → NoDup (Mgo.Iter (Mgo.Find c q)).
Proof.
  intros Hnd. rewrite Iter_Find. destruct (Mgo.encodable_selector q).
  - by apply NoDup_filter.
  - apply NoDup_nil_2.
Qed.

Lemma encodable_unlink_selector (id : UUID) (sgen egen : Z) :
  Mgo.encodable_selector (unlink_selector id sgen egen) = true
  ↔ sgen < 2 ^ 63 ∧ egen < 2 ^ 63.
Proof.
  unfold Mgo.encodable_selector. simpl.
  by rewrite andb_true_iff, !encodable_spec.
Qed.

Lemma upserted_subseteq (docs : list fake_sblock) (x : fake_sblock) :
  x ∈ upserted docs → x ∈ docs.
Proof.
  induction docs as [|d docs IH]; [done|]. cbn [upserted].
  destruct (Mgo.encodable_doc d); [|by intros ?%elem_of_nil].
  intros [->|Hx]%elem_of_cons; [left|right; by apply IH].
Qed.


Lemma forallb_encodable_doc (docs : list fake_sblock) :
  (∀ d, d ∈ docs → Mgo.encodable_doc d = true) →
  forallb Mgo.encodable_doc docs = true.
Proof.
  induction docs as [|d docs IH]; intros Hall; [done|]. cbn [forallb].
  rewrite Hall by left. apply IH. intros x Hx. apply Hall. by right.
Qed.

Lemma mark_docs_nil (c : Mgo.Collection) : mark_docs [] <$> c = c.
Proof.
  etrans; [|apply list_fmap_id]. apply list_fmap_ext. intros i x _.
  unfold mark_docs. by destruct (decide (x ∈ [])) as [?%elem_of_nil|].
Qed.

Lemma mark_docs_fields (docs : list fake_sblock) (x : fake_sblock) :
  Uuid (mark_docs docs x) = Uuid x ∧ Gen (mark_docs docs x) = Gen x
  ∧ Root (mark_docs docs x) = Root x.
Proof. unfold mark_docs. by destruct (decide _). Qed.

(** On a store with one document per stream and version the loop marks, in
    place, the documents it gets through. *)
Lemma unlink_loop_unique (id : UUID) (docs : list fake_sblock) (c : Mgo.Collection) :
  sb_unique c → NoDup docs →
  (∀ d, d ∈ docs → d ∈ c ∧ Uuid d = uuid_String id) →
  unlink_loop id docs c = (loop_outcome docs, mark_docs (upserted docs) <$> c).
Proof.
  revert c. induction docs as [|d docs IH]; intros c Hu Hnd Hdocs.
  - cbn [unlink_loop upserted]. by rewrite mark_docs_nil.
  - cbn [unlink_loop upserted]. unfold Mgo.Upsert, loop_outcome.
    cbn [forallb]. rewrite Upsert_guard.
    destruct (Mgo.encodable_doc d); simpl; [|by rewrite mark_docs_nil].
    destruct (Hdocs d) as [Hd Hid]; [left|].
    rewrite (update_first_unique id c d (mark_unlinked d)) by done.
    apply NoDup_cons in Hnd as [Hfresh Hnd].
    set (c1 := (λ x, if decide (x = d) then mark_unlinked d else x) <$> c).
    assert (sb_key <$> c1 = sb_key <$> c) as Hkeys.
    { unfold c1. rewrite <- list_fmap_compose. apply list_fmap_ext.
      intros i x _. simpl. by destruct (decide (x = d)) as [->|]. }
    assert (sb_unique c1) as Hu1 by (unfold sb_unique; by rewrite Hkeys).
    rewrite IH; [|done|done|].
    + fold (loop_outcome docs). f_equal. unfold c1. rewrite <- list_fmap_compose.
      apply list_fmap_ext. intros i x Hix. simpl. unfold mark_docs.
      assert (x ∈ c) as Hx by (by eapply list_elem_of_lookup_2).
      destruct (decide (x = d)) as [->|Hne].
      * rewrite (decide_True (P := d ∈ d :: upserted docs)) by left.
        rewrite decide_False; [done|].
        intros Hin%upserted_subseteq. apply Hfresh.
        destruct (Hdocs (mark_unlinked d)) as [Hin' _]; [by right|].
        by rewrite <- (sb_unique_inj c (mark_unlinked d) d Hu Hin' Hd eq_refl).
      * destruct (decide (x ∈ upserted docs)) as [Hin|Hnin].
        -- rewrite decide_True; [done|by right].
        -- rewrite decide_False; [done|].
           intros [?|?]%elem_of_cons; done.
    + intros x Hx. destruct (Hdocs x) as [Hxc Hxid]; [by right|].
      split; [|done]. unfold c1. apply list_elem_of_fmap.
      exists x. split; [|done]. rewrite decide_False; [done|].
      by intros ->.
Qed.

(** What [UnlinkGenerations] does on a store with one document per stream
    and version: the documents the loop gets through are marked where they
    lie, and the call panics at the first one the driver cannot encode. *)
Lemma UnlinkGenerations_unique_run (bs : BlockStore) (id : UUID) (sgen egen : Z) :
  sb_unique (db bs) →
  UnlinkGenerations bs id sgen egen
  = (match loop_outcome
             (Mgo.Iter (Mgo.Find (db bs) (unlink_selector id sgen egen))) with
     | Return _ => Return None
     | Panic msg => Panic msg
     | Blocks => Blocks
     end,
     set_db (mark_docs
               (upserted (Mgo.Iter (Mgo.Find (db bs) (unlink_selector id sgen egen))))
               <$> db bs) bs).
Proof.
  intros Hu. unfold UnlinkGenerations.
  rewrite unlink_loop_unique.
  - by destruct (loop_outcome _).
  - done.
  - by apply NoDup_Iter_Find, sb_unique_NoDup.
  - intros d (_ & Hm & Hd)%elem_of_Iter_Find.
    apply matches_unlink_selector in Hm as (? & _). done.
Qed.



(** A query that does not look at the mark sees the same documents, in the
    same order, whatever has been done to the marks. *)
Lemma matching_fmap (f : fake_sblock → fake_sblock) (c : Mgo.Collection)
    (q : Mgo.selector) :
  (∀ x, Uuid (f x) = Uuid x ∧ Gen (f x) = Gen x) →
  Mgo.sel_unlinked q = None →
  Mgo.matching (f <$> c) q = f <$> Mgo.matching c q.
Proof.
  intros Hf Hq. unfold Mgo.matching, Mgo.Collection in *.
  induction c as [|d c IH]; [done|].
  rewrite fmap_cons, !filter_cons, IH.
  assert (Mgo.matches q (f d) = Mgo.matches q d) as ->.
  { destruct (Hf d) as [Hu Hg]. unfold Mgo.matches. by rewrite Hu, Hg, Hq. }
  by destruct (decide (Is_true (Mgo.matches q d))).
Qed.




(** ** The typed read path *)

Lemma lru_find_cachePut (c : Cache) (addr : Z) (b : Datablock) :
  0 < cachemax c → lru_find addr (lru (cachePut c addr b)) = Some b.
Proof.
  intros Hmax. unfold cachePut. simpl.
  destruct (Z.to_nat (cachemax c)) as [|n] eqn:Hn; [lia|].
  simpl. by rewrite bool_decide_eq_true_2.
Qed.

Lemma lru_cachePut_no_room (c : Cache) (addr : Z) (b : Datablock) :
  cachemax c ≤ 0 → lru (cachePut c addr b) = [].
Proof.
  intros Hmax. unfold cachePut. simpl.
  by replace (Z.to_nat (cachemax c)) with 0%nat by lia.
Qed.

Lemma cacheGet_miss (c : Cache) (addr : Z) :
  lru_find addr (lru c) = None → cacheGet c addr = (None, c).
Proof. intros Hmiss. unfold cacheGet. by rewrite Hmiss. Qed.

(** C4 (amended). When [cacheGet] finds the address, [ReadDatablock]
    returns the cached block as it is, whatever version, point width and
    start time the caller passes.  When it does not, the block decoded from
    storage carries the address and the caller's version, point width and
    start time; it enters the cache when the cache has room for a block
    ([cachemax] above 0), and with [cachemax] 0 the cache stays empty.  The
    call panics only on a type tag that is neither core nor vector. *)
Theorem ReadDatablock_stamps_on_miss (bs : BlockStore) (addr g pw st : Z) :
  match (cacheGet (cache bs) addr).1 with
  | Some blk => (ReadDatablock bs addr g pw st).1 = Return blk
  | None =>
      match (ReadDatablock bs addr g pw st).1 with
      | Return b =>
          GetIdentifier b = addr ∧ GetGeneration b = g
          ∧ GetPointWidth b = pw ∧ GetStartTime b = st
          ∧ (0 < cachemax (cache bs) →
             (cacheGet (cache (ReadDatablock bs addr g pw st).2) addr).1 = Some b)
          ∧ (cachemax (cache bs) ≤ 0 →
             lru (cache (ReadDatablock bs addr g pw st).2) = [])
      | Panic _ => DatablockGetBufferType (Read (store bs) addr) = Bad
      | Blocks => False
      end
  end.
Proof.
  unfold ReadDatablock.
  destruct (lru_find addr (lru (cache bs))) as [blk|] eqn:Hfind.
  - unfold cacheGet. by rewrite Hfind.
  - rewrite (cacheGet_miss _ _ Hfind). simpl.
    destruct (DatablockGetBufferType _); simpl; [| |done].
    + do 4 (split; [done|]). split.
      * intros Hmax. unfold cacheGet. by rewrite lru_find_cachePut.
      * intros Hmax. by apply lru_cachePut_no_room.
    + do 4 (split; [done|]). split.
      * intros Hmax. unfold cacheGet. by rewrite lru_find_cachePut.
      * intros Hmax. by apply lru_cachePut_no_room.
Qed.

(** ** The allocator *)

Section Allocator.
Hypothesis base_range : 0 ≤ RELOCATION_BASE < 2 ^ 64.

Lemma nth_address_0 : nth_address 0 = RELOCATION_BASE.
Proof.
  unfold nth_address, two64. simpl. rewrite Z.mod_0_l by lia. lia.
Qed.

Lemma nth_address_small (n : nat) :
  Z.of_nat n < 2 ^ 64 - RELOCATION_BASE →
  nth_address n = RELOCATION_BASE + Z.of_nat n.
Proof.
  intros Hn. unfold nth_address, two64. rewrite Z.mod_small by lia. done.
Qed.

Lemma nth_address_wraps :
  nth_address (Z.to_nat (2 ^ 64 - RELOCATION_BASE)) = RELOCATION_BASE.
Proof.
  unfold nth_address, two64. rewrite Z2Nat.id by lia.
  rewrite Z.mod_same by lia. lia.
Qed.

(** The goroutine's increment walks the sequence. *)
Lemma next_addr_nth_address (n : nat) :
  next_addr (nth_address n) = nth_address (S n).
Proof.
  unfold next_addr, nth_address, wrap64, two64.
  set (M := 2 ^ 64 - RELOCATION_BASE).
  assert (0 < M) as HM by (unfold M; lia).
  pose proof (Z.mod_pos_bound (Z.of_nat n) M HM) as Hr.
  pose proof (Z.div_mod (Z.of_nat n) M ltac:(lia)) as Hdm.
  set (r := Z.of_nat n mod M) in *. set (q := Z.of_nat n / M) in *.
  destruct (decide (r + 1 < M)) as [Hlt|Hge].
  - assert (Z.of_nat (S n) mod M = r + 1) as ->.
    { symmetry. apply (Z.mod_unique _ _ q); [lia|lia]. }
    rewrite Z.mod_small by (unfold M in *; lia).
    rewrite bool_decide_eq_false_2 by lia. lia.
  - assert (r + 1 = M) as HrM by lia.
    assert (Z.of_nat (S n) mod M = 0) as ->.
    { symmetry. apply (Z.mod_unique _ _ (q + 1)); [lia|lia]. }
    replace (RELOCATION_BASE + r + 1) with (2 ^ 64) by (unfold M in *; lia).
    rewrite Z.mod_same by lia.
    case_bool_decide; lia.
Qed.

Lemma alloc_inv_fresh : alloc_inv 0 alloc_fresh.
Proof. exists 0%nat. split; [done|]. simpl. by rewrite nth_address_0. Qed.

Lemma alloc_send_inv (k : nat) (al al' : Allocator) :
  alloc_inv k al → alloc_send al = Some al' → alloc_inv k al'.
Proof.
  intros (m & Hchan & Hnext). unfold alloc_send.
  case_bool_decide; [|done]. intros [= <-].
  exists (S m). cbn [chan relocation_addr]. split.
  - rewrite Hchan, Hnext, seq_S, fmap_app. done.
  - rewrite Hnext, next_addr_nth_address. f_equal. lia.
Qed.

Lemma alloc_recv_inv (k : nat) (al al' : Allocator) (a : Z) :
  alloc_inv k al → alloc_recv al = Some (a, al') →
  a = nth_address k ∧ alloc_inv (S k) al'.
Proof.
  intros (m & Hchan & Hnext). unfold alloc_recv.
  destruct m as [|m]; rewrite Hchan; [done|].
  simpl. intros [= <- <-]. split; [done|].
  exists m. simpl. split; [done|]. rewrite Hnext. f_equal. lia.
Qed.

(** Whatever the interleaving of the goroutine and the receivers, the
    addresses come out in the order of the sequence. *)
Lemma alloc_run_delivers (sched : list alloc_event) (k : nat) (al al' : Allocator)
    (out : list Z) :
  alloc_inv k al → alloc_run sched al = Some (out, al') →
  out = nth_address <$> seq k (length out) ∧ alloc_inv (k + length out) al'.
Proof.
  revert k al out. induction sched as [|e sched IH]; intros k al out Hinv; simpl.
  - intros [= <- <-]. simpl. by rewrite Nat.add_0_r.
  - destruct e.
    + destruct (alloc_send al) as [al1|] eqn:Hsend; [|done]. simpl.
      apply IH. by eapply alloc_send_inv.
    + destruct (alloc_recv al) as [[a al1]|] eqn:Hrecv; [|done]. simpl.
      destruct (alloc_run sched al1) as [[out1 al2]|] eqn:Hrun; [|done]. simpl.
      intros [= <- <-].
      destruct (alloc_recv_inv k al al1 a Hinv Hrecv) as [-> Hinv1].
      destruct (IH (S k) al1 out1 Hinv1 Hrun) as [Hout Hinv2].
      cbn [length seq]. rewrite fmap_cons, <- Hout. split; [done|].
      by replace (k + S (length out1))%nat with (S k + length out1)%nat by lia.
Qed.

Lemma alloc_recv_None (al : Allocator) : alloc_recv al = None → chan al = [].
Proof. unfold alloc_recv. by destruct (chan al). Qed.

(** On an empty buffer the goroutine's send goes through, and the receive
    that follows takes the address sent. *)
Lemma alloc_send_recv_empty (al : Allocator) :
  chan al = [] →
  alloc_send al ≫= alloc_recv
  = Some (relocation_addr al,
          {| relocation_addr := next_addr (relocation_addr al); chan := [] |}).
Proof. intros Hchan. unfold alloc_send, alloc_recv. rewrite Hchan. done. Qed.

Lemma allocateBlock_frame (bs : BlockStore) :
  ∃ al, (allocateBlock bs).2 = set_alloc al bs.
Proof.
  unfold allocateBlock.
  destruct (alloc_recv (alloc bs)) as [[a al]|] eqn:Hrecv; [by eexists|].
  rewrite alloc_send_recv_empty by (by apply alloc_recv_None). by eexists.
Qed.

Lemma allocateBlock_inv (k : nat) (bs : BlockStore) :
  alloc_inv k (alloc bs) →
  (allocateBlock bs).1 = nth_address k ∧ alloc_inv (S k) (alloc (allocateBlock bs).2).
Proof.
  intros Hinv. unfold allocateBlock.
  destruct (alloc_recv (alloc bs)) as [[a al]|] eqn:Hrecv.
  - by destruct (alloc_recv_inv k _ _ _ Hinv Hrecv) as [-> ?].
  - rewrite alloc_send_recv_empty by (by apply alloc_recv_None).
    destruct Hinv as (m & Hchan & Hnext). unfold alloc_recv in Hrecv.
    destruct m as [|m]; rewrite Hchan in Hrecv; [|done].
    rewrite Nat.add_0_r in Hnext. simpl. split; [done|].
    exists 0%nat. simpl. split; [done|].
    rewrite Hnext, next_addr_nth_address. f_equal. lia.
Qed.

Lemma allocate_many_inv (n k : nat) (bs : BlockStore) :
  alloc_inv k (alloc bs) →
  (allocate_many n bs).1 = nth_address <$> seq k n.
Proof.
  revert k bs. induction n as [|n IH]; intros k bs Hinv; [done|].
  simpl. destruct (allocateBlock_inv k bs Hinv) as [Ha Hinv1].
  destruct (allocateBlock bs) as [a bs1]. simpl in *.
  specialize (IH (S k) bs1 Hinv1).
  destruct (allocate_many n bs1) as [rest bs2]. simpl in *. by subst.
Qed.

(** A call of [allocateBlock] is a receive, after a send of the goroutine
    when the buffer is empty. *)
Lemma allocateBlock_as_run (bs : BlockStore) :
  ∃ sched,
    alloc_run sched (alloc bs)
    = Some ([(allocateBlock bs).1], alloc (allocateBlock bs).2).
Proof.
  unfold allocateBlock.
  destruct (alloc_recv (alloc bs)) as [[a al]|] eqn:Hrecv.
  - exists [Consume]. simpl. by rewrite Hrecv.
  - exists [Produce; Consume].
    pose proof (alloc_send_recv_empty _ (alloc_recv_None _ Hrecv)) as Hturn.
    rewrite Hturn. simpl.
    destruct (alloc_send (alloc bs)) as [al1|]; [|done]. simpl in *.
    by rewrite Hturn.
Qed.

(** C7. The block store [NewBlockStore] builds hands out, over [n] calls of
    [allocateBlock] in a row, the addresses [RELOCATION_BASE],
    [RELOCATION_BASE + 1], ... and, once the counter passes the largest
    [uint64], the base again; as long as no overflow occurs the addresses
    are strictly increasing, hence distinct.  The addresses leave the
    channel in that order under every interleaving of the goroutine and the
    receivers. *)
Theorem allocator_addresses (c : Mgo.Collection) (cachesize : Z) (disk : Storage)
    (n : nat) :
  ∃ bs,
    NewBlockStore (Mgo.MgoOk c) cachesize disk = (Some bs, None)
    ∧ (allocate_many n bs).1
      = (λ i : nat, RELOCATION_BASE + Z.of_nat i mod (2 ^ 64 - RELOCATION_BASE))
          <$> seq 0 n
    ∧ (Z.of_nat n ≤ 2 ^ 64 - RELOCATION_BASE →
       (allocate_many n bs).1 = (λ i : nat, RELOCATION_BASE + Z.of_nat i) <$> seq 0 n
       ∧ ∀ (i j : nat) (a b : Z),
           (i < j)%nat →
           (allocate_many n bs).1 !! i = Some a →
           (allocate_many n bs).1 !! j = Some b →
           a < b)
    ∧ next_addr (2 ^ 64 - 1) = RELOCATION_BASE
    ∧ (∀ sched out al,
         alloc_run sched (alloc bs) = Some (out, al) →
         out = (λ i : nat, RELOCATION_BASE
                           + Z.of_nat i mod (2 ^ 64 - RELOCATION_BASE))
                 <$> seq 0 (length out)).
Proof.
  eexists. split; [reflexivity|].
  assert ((allocate_many n
             {| db := c; mutexes := []; _wlocks := ∅; cache := initCache cachesize;
                store := disk; alloc := alloc_fresh |}).1
          = nth_address <$> seq 0 n) as Hseq
    by (apply allocate_many_inv, alloc_inv_fresh).
  split; [done|]. split; [|split].
  - intros Hn.
    assert (nth_address <$> seq 0 n
            = (λ i : nat, RELOCATION_BASE + Z.of_nat i) <$> seq 0 n) as Hsmall.
    { apply list_fmap_ext. intros i x Hix.
      apply lookup_seq in Hix as [-> Hlt]. apply nth_address_small. lia. }
    rewrite Hseq, Hsmall. split; [done|].
    intros i j a b Hij Ha Hb.
    rewrite list_lookup_fmap in Ha, Hb.
    destruct (seq 0 n !! i) as [i'|] eqn:Hi; [|done].
    destruct (seq 0 n !! j) as [j'|] eqn:Hj; [|done].
    apply lookup_seq in Hi as [-> _]. apply lookup_seq in Hj as [-> _].
    simpl in *. simplify_eq. lia.
  - unfold next_addr, wrap64, two64.
    replace (2 ^ 64 - 1 + 1) with (2 ^ 64) by lia.
    rewrite Z.mod_same by lia. case_bool_decide; lia.
  - intros sched out al Hrun. cbn [alloc] in Hrun.
    by destruct (alloc_run_delivers sched 0 _ _ _ alloc_inv_fresh Hrun) as [Hout _].
Qed.

End Allocator.

(** ** Tasks racing for the write lock of one stream *)

Lemma load_generation_total (bs : BlockStore) (id : UUID) :
  ∃ g, load_generation bs id = Return g
       ∧ Generation_Uuid g = id ∧ flushed g = false.
Proof.
  unfold load_generation.
  pose proof (One_latest (db bs) id) as Hone.
  destruct (Mgo.One _) as [rs| |e]; [by eauto..|done].
Qed.

Lemma load_generation_db (bs bs' : BlockStore) (id : UUID) :
  db bs' = db bs → load_generation bs' id = load_generation bs id.
Proof. intros Hdb. unfold load_generation. by rewrite Hdb. Qed.

Lemma run_schedule_cons (i : nat) (sched : list nat) (cfg cfg' : Config) :
  sched_step cfg i = Some cfg' →
  run_schedule (i :: sched) cfg = run_schedule sched cfg'.
Proof. intros Hstep. simpl. by rewrite Hstep. Qed.

Lemma sched_step_first (bs bs' : BlockStore) (t0 t0' t1 : Task) :
  task_step bs t0 = Some (bs', t0') →
  sched_step (bs, [t0; t1]) 0 = Some (bs', [t0'; t1]).
Proof. intros Hstep. simpl. by rewrite Hstep. Qed.

Lemma sched_step_second (bs bs' : BlockStore) (t0 t1 t1' : Task) :
  task_step bs t1 = Some (bs', t1') →
  sched_step (bs, [t0; t1]) 1 = Some (bs', [t0; t1']).
Proof. intros Hstep. simpl. by rewrite Hstep. Qed.

Lemma task_step_lookup_absent (bs : BlockStore) (id : UUID) :
  _wlocks bs !! UUIDToMapKey id = None →
  task_step bs (AtLookup id) = Some (bs, AtCreate id).
Proof. intros Hnone. simpl. by rewrite Hnone. Qed.

Lemma task_step_create (bs : BlockStore) (id : UUID) :
  task_step bs (AtCreate id)
  = Some (set_mutexes (mutexes bs ++ [true]) bs, AtStore id (length (mutexes bs))).
Proof.
  unfold task_step.
  pose proof (Mutex_Lock_new (mutexes bs)) as Hlock.
  destruct (Mutex_new (mutexes bs)) as [mtx h] eqn:Hnew.
  simpl in Hlock. rewrite Hlock. simpl.
  unfold Mutex_new in Hnew. by injection Hnew as <- _.
Qed.

Lemma task_step_load (bs : BlockStore) (id : UUID) (g : Generation) :
  load_generation bs id = Return g →
  task_step bs (AtLoad id) = Some (bs, Holding g).
Proof. intros Hload. simpl. by rewrite Hload. Qed.

(** C1 (what the code does). On a block store just built, two tasks that
    call [ObtainGeneration] for the same stream can both find the registry
    without an entry, each create and lock a mutex of its own, and each
    store it: under the schedule below both calls return, the two
    generations are open at once with the same pending version, two mutex
    objects exist for the stream and both are held, and the registry names
    the one stored last. *)
Theorem ObtainGeneration_race (c : Mgo.Collection) (cachesize : Z) (disk : Storage)
    (id : UUID) :
  ∃ bs g1 g2 bs',
    NewBlockStore (Mgo.MgoOk c) cachesize disk = (Some bs, None)
    ∧ run_schedule [0; 1; 0; 1; 0; 1; 0; 1]%nat (bs, [AtLookup id; AtLookup id])
      = Some (bs', [Holding g1; Holding g2])
    ∧ open_generations id [Holding g1; Holding g2] = 2%nat
    ∧ Number g1 = Number g2
    ∧ mutexes bs' = [true; true]
    ∧ _wlocks bs' !! UUIDToMapKey id = Some 1%nat.
Proof.
  set (bs0 := {| db := c; mutexes := []; _wlocks := ∅; cache := initCache cachesize;
                 store := disk; alloc := alloc_fresh |}).
  destruct (load_generation_total bs0 id) as (g & Hload & Hid & Hf).
  set (w1 := <[UUIDToMapKey id := 0%nat]> (∅ : gmap (list Z) nat)).
  set (w2 := <[UUIDToMapKey id := 1%nat]> w1).
  exists bs0, g, g, (set_wlocks w2 (set_mutexes [true; true] bs0)).
  split; [done|]. split; [|split; [|split; [done|split; [done|]]]].
  - (* both tasks read the registry before either has stored its mutex *)
    erewrite run_schedule_cons;
      [|by apply sched_step_first, task_step_lookup_absent, lookup_empty].
    erewrite run_schedule_cons;
      [|by apply sched_step_second, task_step_lookup_absent, lookup_empty].
    (* each creates and locks a mutex of its own *)
    erewrite run_schedule_cons; [|apply sched_step_first, task_step_create].
    erewrite run_schedule_cons; [|apply sched_step_second, task_step_create].
    (* each stores its mutex under the stream's key *)
    erewrite run_schedule_cons; [|by apply sched_step_first].
    erewrite run_schedule_cons; [|by apply sched_step_second].
    (* both build a generation from the same latest superblock *)
    erewrite run_schedule_cons;
      [|apply sched_step_first, task_step_load;
        by rewrite <- Hload; apply load_generation_db].
    erewrite run_schedule_cons;
      [|apply sched_step_second, task_step_load;
        by rewrite <- Hload; apply load_generation_db].
    done.
  - assert (holds_open id (Holding g) = true) as Hopen.
    { simpl. rewrite Hid, Hf. by rewrite bool_decide_eq_true_2. }
    unfold open_generations.
    rewrite !filter_cons_True by (by rewrite Hopen). done.
  - unfold w2. apply lookup_insert_eq.
Qed.

(** ** One record per stream and version *)

(** The invariant of the superblock store: it holds of the empty store,
    and unlinking and the sequential use of a generation keep it. *)
Lemma sb_unique_empty : sb_unique [].
Proof. apply NoDup_nil_2. Qed.

Lemma UnlinkGenerations_keeps_unique (bs : BlockStore) (id : UUID) (sgen egen : Z) :
  sb_unique (db bs) → sb_unique (db (UnlinkGenerations bs id sgen egen).2).
Proof.
  intros Hu. rewrite UnlinkGenerations_unique_run by done.
  unfold sb_unique, set_db, Mgo.Collection in *. cbn [snd db].
  rewrite <- list_fmap_compose.
  erewrite list_fmap_ext; [exact Hu|].
  intros i d _. simpl. unfold mark_docs. by destruct (decide _).
Qed.

Lemma Commit_db (g : Generation) (bs : BlockStore) :
  uuid (New_SB (Commit g bs).1.2) = uuid (New_SB g)
  ∧ ((db (Commit g bs).2 = db bs ∧ flushed (Commit g bs).1.2 = flushed g)
     ∨ (flushed g = false ∧ flushed (Commit g bs).1.2 = true
        ∧ ∃ r, db (Commit g bs).2
               = db bs ++ [mk_fake_sblock (uuid_String (uuid (New_SB g)))
                             (gen (New_SB g)) r false])).
Proof.
  unfold Commit.
  destruct (flushed g) eqn:Hf; [by auto|].
  destruct (LinkAndStore _ _ _) as [amap disk]. simpl.
  destruct (amap !! root (New_SB g)) as [rootaddr|]; simpl; [|by auto].
  unfold Mgo.Insert. destruct (Mgo.encodable_doc _); simpl; [|by auto].
  destruct (_wlocks bs !! _) as [mtx|]; [|by eauto 10].
  destruct (Mutex_Unlock _ _); by eauto 10.
Qed.

Lemma apply_op_db (g : Generation) (bs : BlockStore) (op : GenOp) :
  uuid (New_SB (apply_op (g, bs) op).1) = uuid (New_SB g)
  ∧ ((db (apply_op (g, bs) op).2 = db bs
      ∧ flushed (apply_op (g, bs) op).1 = flushed g)
     ∨ (flushed g = false ∧ flushed (apply_op (g, bs) op).1 = true
        ∧ ∃ r, db (apply_op (g, bs) op).2
               = db bs ++ [mk_fake_sblock (uuid_String (uuid (New_SB g)))
                             (gen (New_SB g)) r false])).
Proof.
  destruct op; simpl; try by auto.
  - unfold AllocateCoreblock. destruct (allocateBlock_frame bs) as [al Hal].
    destruct (allocateBlock bs) as [a bs']. simpl in Hal. subst bs'. by auto.
  - unfold AllocateVectorblock. destruct (allocateBlock_frame bs) as [al Hal].
    destruct (allocateBlock bs) as [a bs']. simpl in Hal. subst bs'. by auto.
  - pose proof (Commit_db g bs) as Hc.
    by destruct (Commit g bs) as [[r g'] bs'].
Qed.

(** Whatever the calls made on a generation, at most one record is added
    to the store, and it is the record of the pending version. *)
Lemma apply_ops_db (ops : list GenOp) (g : Generation) (bs : BlockStore) :
  uuid (New_SB (apply_ops ops (g, bs)).1) = uuid (New_SB g)
  ∧ ((db (apply_ops ops (g, bs)).2 = db bs
      ∧ flushed (apply_ops ops (g, bs)).1 = flushed g)
     ∨ (flushed g = false ∧ flushed (apply_ops ops (g, bs)).1 = true
        ∧ ∃ r, db (apply_ops ops (g, bs)).2
               = db bs ++ [mk_fake_sblock (uuid_String (uuid (New_SB g)))
                             (gen (New_SB g)) r false])).
Proof.
  revert g bs. induction ops as [|op ops IH]; intros g bs; [by auto|].
  unfold apply_ops in *. cbn [fold_left].
  pose proof (apply_op_db g bs op) as [Hu Hstep].
  pose proof (apply_op_versions g bs op) as [_ Hgen].
  destruct (apply_op (g, bs) op) as [g1 bs1]. simpl in Hu, Hstep, Hgen.
  destruct (IH g1 bs1) as [Hu' Hrest].
  split; [congruence|].
  destruct Hstep as [[Hdb Hf]|(Hf & Hf1 & r & Hdb)];
    destruct Hrest as [[Hdb' Hf']|(Hf' & Hf1' & r' & Hdb')].
  - left. split; congruence.
  - right. split; [congruence|]. split; [done|].
    exists r'. rewrite Hdb', Hdb, Hu, Hgen. done.
  - right. split; [done|]. split; [congruence|].
    exists r. by rewrite Hdb'.
  - congruence.
Qed.

(** The pending version of a generation is the version of no record of its
    stream, as long as versions stay below the largest [uint64]. *)
Lemma pending_version_unused (bs : BlockStore) (id : UUID) (g : Generation) :
  (∀ d, d ∈ db bs → Uuid d = uuid_String id → 0 ≤ Gen d < 2 ^ 64 - 1) →
  load_generation bs id = Return g →
  ∀ d, d ∈ db bs → Uuid d = uuid_String id → Gen d ≠ gen (New_SB g).
Proof.
  intros Hrange. unfold load_generation.
  pose proof (One_latest (db bs) id) as Hone.
  destruct (Mgo.One _) as [rs| |e]; [| |done].
  - intros [= <-] d Hd Hu. simpl.
    destruct Hone as [Hrs Hmax].
    apply elem_of_matching in Hrs as [Hm Hrs]. apply matches_stream_selector in Hm.
    specialize (Hrange rs Hrs Hm).
    assert (Gen d ≤ Gen rs) as Hle.
    { apply Hmax, elem_of_matching. split; [by apply matches_stream_selector|done]. }
    unfold wrap64, two64. rewrite Z.mod_small by lia. lia.
  - intros _ d Hd Hu.
    assert (d ∈ Mgo.matching (db bs) (stream_selector id)) as Hin.
    { apply elem_of_matching. split; [by apply matches_stream_selector|done]. }
    rewrite Hone in Hin. by apply not_elem_of_nil in Hin.
Qed.

(** X5. A task that obtains a generation and works on it, with no other
    task in between, leaves a store with one record per stream and version,
    as it found it. *)
Lemma sequential_use_keeps_unique (bs bs1 : BlockStore) (id : UUID)
    (g : Generation) (ops : list GenOp) :
  sb_unique (db bs) →
  (∀ d, d ∈ db bs → Uuid d = uuid_String id → 0 ≤ Gen d < 2 ^ 64 - 1) →
  ObtainGeneration bs id = (Return g, bs1) →
  sb_unique (db (apply_ops ops (g, bs1)).2).
Proof.
  intros Hu Hrange Hog.
  apply ObtainGeneration_inv in Hog as [Hload Hdb1].
  pose proof (pending_version_unused bs id g Hrange Hload) as Hfresh.
  apply load_generation_versions in Hload as (_ & _ & Hid & _).
  destruct (apply_ops_db ops g bs1) as [_ [[Hdb _]|(_ & _ & r & Hdb)]];
    rewrite Hdb, Hdb1; [done|].
  unfold sb_unique in *. rewrite fmap_app. apply NoDup_app.
  split; [done|]. split; [|apply NoDup_singleton].
  intros k Hk Hk'. apply list_elem_of_fmap in Hk as (d & -> & Hd).
  simpl in Hk'. apply list_elem_of_singleton in Hk'.
  unfold sb_key in Hk'. simpl in Hk'. injection Hk' as Hku Hkg.
  rewrite Hid in Hku. by apply (Hfresh d).
Qed.

(** X4. Once the registry holds a stream's mutex, the lock does its work: a
    second call for the stream waits as long as the generation is open. *)
Lemma ObtainGeneration_excludes (bs bs' : BlockStore) (id : UUID) (g : Generation) :
  ObtainGeneration bs id = (Return g, bs') →
  ObtainGeneration bs' id = (Blocks, bs').
Proof.
  unfold ObtainGeneration at 1.
  destruct (_wlocks bs !! UUIDToMapKey id) as [mtx|] eqn:Hreg.
  - unfold Mutex_Lock.
    destruct (mutexes bs !! mtx) as [[|]|] eqn:Hm; [done| |done].
    intros [= _ <-]. unfold ObtainGeneration, Mutex_Lock. simpl.
    rewrite Hreg. unfold MutexHeap in *.
    rewrite list_lookup_insert_eq; [done|]. by eapply lookup_lt_Some.
  - pose proof (Mutex_Lock_new (mutexes bs)) as Hlock.
    destruct (Mutex_new (mutexes bs)) as [mtx h] eqn:Hnew.
    simpl in Hlock. rewrite Hlock. intros [= _ <-].
    unfold ObtainGeneration, Mutex_Lock. simpl.
    rewrite lookup_insert_eq.
    unfold Mutex_new in Hnew. injection Hnew as <- _.
    unfold MutexHeap in *.
    rewrite (lookup_app_r (mutexes bs) [true]), Nat.sub_diag by done. done.
Qed.

(** The sequential reading of [ObtainGeneration] is the task running with
    no other task in between. *)
Lemma ObtainGeneration_as_task (bs bs' : BlockStore) (id : UUID) (g : Generation) :
  ObtainGeneration bs id = (Return g, bs') →
  ∃ n, run_schedule (replicate n 0%nat) (bs, [AtLookup id])
       = Some (bs', [Holding g]).
Proof.
  unfold ObtainGeneration.
  destruct (_wlocks bs !! UUIDToMapKey id) as [mtx|] eqn:Hreg.
  - destruct (Mutex_Lock (mutexes bs) mtx) as [h|] eqn:Hlock; [|done].
    intros [= Hload <-]. exists 3%nat. simpl.
    rewrite Hreg. simpl. rewrite Hlock. simpl. by rewrite Hload.
  - pose proof (Mutex_Lock_new (mutexes bs)) as Hlock.
    unfold Mutex_new in *. simpl in *. rewrite Hlock. intros [= Hload <-].
    exists 4%nat. simpl. rewrite Hreg. simpl. rewrite Hlock. simpl.
    erewrite load_generation_db; [by rewrite Hload|done].
Qed.

End Properties.

(** * The definitions at work on the sample environment *)

Module Evaluation.
Import Sample.
#[local] Existing Instance env.

(** The scenario of the specification: [UnlinkGenerations(S, 2, 5)] marks
    versions 2, 3 and 4, and not 5. *)
Example UnlinkGenerations_2_5 :
  (λ d, (Gen d, Unlinked d)) <$> db (UnlinkGenerations bs_six S1 2 5).2
  = [(1, false); (2, true); (3, true); (4, true); (5, false); (6, false)].
Proof. vm_compute. reflexivity. Qed.

(** Asked for version [2^64 - 1], [LoadSuperblock] answers version 6. *)
Example LoadSuperblock_latest_is_6 :
  LoadSuperblock bs_six S1 (2 ^ 64 - 1)
  = Return (Some {| uuid := S1; gen := 6; root := 106; unlinked := false |}).
Proof. vm_compute. reflexivity. Qed.

(** The record [Commit] writes for the pending generation, which had address
    77 unreferenced: stream, version 7, the final address of the root, and
    no mark. *)
Example Commit_writes_four_fields :
  last (db (Commit pending.1 pending.2).2)
  = Some {| Uuid := hex S1; Gen := 7; Root := first_final; Unlinked := false |}
  ∧ unref_vaddrs pending.1 = [77].
Proof. vm_compute. split; reflexivity. Qed.

(** After the race of [ObtainGeneration_race] both tasks commit version 1:
    the store ends with two records of that version. *)
Example raced_commits_same_version :
  (λ st, (λ d, (Gen d, Root d)) <$> db st.2) <$> raced_commits
  = Some [(1, first_final); (1, first_final + 1)].
Proof. vm_compute. reflexivity. Qed.


(** Witness of C2: the pending generation of the sample commits, and its
    second [Commit] is refused. *)
Lemma Commit_twice_fails_witness :
  Commit pending.1 pending.2
  = (Return (Some {[ first_address := first_final ]}, None),
     (Commit pending.1 pending.2).1.2, (Commit pending.1 pending.2).2)
  ∧ Commit (Commit pending.1 pending.2).1.2 (Commit pending.1 pending.2).2
    = (Return (None, Some "Already Flushed"%string),
       (Commit pending.1 pending.2).1.2, (Commit pending.1 pending.2).2)
  ∧ db (Commit (Commit pending.1 pending.2).1.2 (Commit pending.1 pending.2).2).2
    = db (Commit pending.1 pending.2).2.
Proof.
  assert (Commit pending.1 pending.2
          = (Return (Some {[ first_address := first_final ]}, None),
             (Commit pending.1 pending.2).1.2, (Commit pending.1 pending.2).2))
    as Hfirst by (vm_compute; reflexivity).
  split; [exact Hfirst|].
  exact (Commit_twice_fails pending.1 _ pending.2 _ _ _ Hfirst).
Defined.

(** Witness of C5: the generation obtained on the six versions keeps
    versions 6 and 7 through allocation, root update, unreferencing and
    commit. *)
Lemma pending_version_witness :
  ObtainGeneration bs_six S1 = (Return obtained_gen, obtained_bs)
  ∧ let g' :=
      (apply_ops
         [OpAllocateCoreblock; OpUpdateRootAddr first_address;
          OpUnreferenceBlock 77; OpCommit]
         (obtained_gen, obtained_bs)).1 in
    gen (Cur_SB g') = gen (Cur_SB obtained_gen)
    ∧ gen (New_SB g') = gen (New_SB obtained_gen)
    ∧ gen (New_SB g') = wrap64 (gen (Cur_SB g') + 1)
    ∧ (0 ≤ gen (Cur_SB g') < 2 ^ 64 - 1 → gen (New_SB g') = gen (Cur_SB g') + 1).
Proof.
  assert (ObtainGeneration bs_six S1 = (Return obtained_gen, obtained_bs)) as Hog
    by (vm_compute; reflexivity).
  split; [exact Hog|].
  exact (pending_version_is_current_plus_one bs_six obtained_bs S1 obtained_gen
           [OpAllocateCoreblock; OpUpdateRootAddr first_address;
            OpUnreferenceBlock 77; OpCommit] Hog).
Defined.



(** Witness of C7: three allocations on a block store just built, with the
    base [0xFF00000000000000]. *)
Lemma allocator_addresses_witness :
  0 ≤ RELOCATION_BASE < 2 ^ 64
  ∧ ∃ bs,
      NewBlockStore (Mgo.MgoOk []) 4 (∅ : gmap Z (list Z)) = (Some bs, None)
      ∧ (allocate_many 3 bs).1
        = (λ i : nat, RELOCATION_BASE + Z.of_nat i mod (2 ^ 64 - RELOCATION_BASE))
            <$> seq 0 3
      ∧ (Z.of_nat 3 ≤ 2 ^ 64 - RELOCATION_BASE →
         (allocate_many 3 bs).1
         = (λ i : nat, RELOCATION_BASE + Z.of_nat i) <$> seq 0 3
         ∧ ∀ (i j : nat) (a b : Z),
             (i < j)%nat →
             (allocate_many 3 bs).1 !! i = Some a →
             (allocate_many 3 bs).1 !! j = Some b →
             a < b)
      ∧ next_addr (2 ^ 64 - 1) = RELOCATION_BASE
      ∧ (∀ sched out al,
           alloc_run sched (alloc bs) = Some (out, al) →
           out = (λ i : nat, RELOCATION_BASE
                             + Z.of_nat i mod (2 ^ 64 - RELOCATION_BASE))
                   <$> seq 0 (length out)).
Proof.
  assert (0 ≤ RELOCATION_BASE < 2 ^ 64) as Hbase by (simpl; lia).
  split; [exact Hbase|].
  exact (allocator_addresses Hbase [] 4 ∅ 3%nat).
Defined.

(** Witness of C8: a stream never written, on an empty store. *)
Lemma ObtainGeneration_new_stream_witness :
  (∀ d, d ∈ db (fresh [] 4 ∅) → Uuid d ≠ uuid_String S1)
  ∧ wlock_free (fresh [] 4 ∅) S1
  ∧ ∃ g bs',
      ObtainGeneration (fresh [] 4 ∅) S1 = (Return g, bs')
      ∧ uuid (Cur_SB g) = S1 ∧ gen (Cur_SB g) = 0 ∧ root (Cur_SB g) = 0
      ∧ gen (New_SB g) = 1
      ∧ flushed g = false.
Proof.
  assert (∀ d, d ∈ db (fresh [] 4 ∅) → Uuid d ≠ uuid_String S1) as Hnone.
  { intros d Hd. by apply elem_of_nil in Hd. }
  assert (wlock_free (fresh [] 4 ∅) S1) as Hfree by (vm_compute; exact I).
  split; [exact Hnone|]. split; [exact Hfree|].
  exact (ObtainGeneration_new_stream (fresh [] 4 ∅) S1 Hnone Hfree).
Defined.

(** Witness of C9: the pending generation of the sample, whose root the
    linker resolves. *)
Lemma Commit_root_resolution_witness :
  flushed pending.1 = false
  ∧ match (LinkAndStore (store pending.2) (vblocks pending.1) (cblocks pending.1)).1
          !! root (New_SB pending.1) with
    | None =>
        ∃ g' bs',
          Commit pending.1 pending.2 = (Panic "Could not obtain root address", g', bs')
          ∧ db bs' = db pending.2 ∧ flushed g' = false
    | Some rootaddr =>
        ∃ r g' bs',
          Commit pending.1 pending.2 = (r, g', bs')
          ∧ root (New_SB g') = rootaddr
          ∧ (r ≠ Panic "Could not obtain root address")
          ∧ (gen (New_SB pending.1) < 2 ^ 63 ∧ rootaddr < 2 ^ 63 →
             db bs' = db pending.2 ++ [ {| Uuid := uuid_String (uuid (New_SB pending.1));
                                             Gen := gen (New_SB pending.1);
                                             Root := rootaddr;
                                             Unlinked := false |} ])
          ∧ (¬ (gen (New_SB pending.1) < 2 ^ 63 ∧ rootaddr < 2 ^ 63) →
             r = Panic Mgo.bson_uint64 ∧ db bs' = db pending.2 ∧ flushed g' = false)
    end.
Proof.
  assert (flushed pending.1 = false) as Hf by (vm_compute; reflexivity).
  split; [exact Hf|].
  exact (Commit_root_resolution pending.1 pending.2 Hf).
Defined.

(** C4 (the claim as stated fails). A block first read with version 1,
    point width 2 and start time 3 is cached; read again with version 9,
    point width 8 and start time 6, it comes back with 1, 2 and 3. *)
Lemma ReadDatablock_hit_keeps_first_stamps :
  (ReadDatablock bs_7 7 1 2 3).1
  = Return (DCore {| cb_Identifier := 7; cb_Generation := 1; cb_PointWidth := 2;
                     cb_StartTime := 3; cb_payload := [42] |})
  ∧ (ReadDatablock (ReadDatablock bs_7 7 1 2 3).2 7 9 8 6).1
    = Return (DCore {| cb_Identifier := 7; cb_Generation := 1; cb_PointWidth := 2;
                       cb_StartTime := 3; cb_payload := [42] |})
  ∧ ¬ (∀ (bs : BlockStore) (addr g pw st : Z) (b : Datablock),
         (ReadDatablock bs addr g pw st).1 = Return b →
         GetGeneration b = g ∧ GetPointWidth b = pw ∧ GetStartTime b = st).
Proof.
  assert ((ReadDatablock (ReadDatablock bs_7 7 1 2 3).2 7 9 8 6).1
          = Return (DCore {| cb_Identifier := 7; cb_Generation := 1;
                             cb_PointWidth := 2; cb_StartTime := 3;
                             cb_payload := [42] |})) as Hsecond
    by (vm_compute; reflexivity).
  split; [vm_compute; reflexivity|]. split; [exact Hsecond|].
  intros Hclaim. apply Hclaim in Hsecond as (Hg & _). simpl in Hg. lia.
Qed.


(** C10 (the claim as stated fails).  The version [2^63] is not the
    sentinel and the store holds no record of it, yet [LoadSuperblock] does
    not answer [nil]: the driver cannot encode the query, and the call
    panics. *)
Lemma LoadSuperblock_panics_from_2_63 :
  2 ^ 63 ≠ LatestGeneration
  ∧ (∀ d, d ∈ db bs_six → ¬ (Uuid d = uuid_String S1 ∧ Gen d = 2 ^ 63))
  ∧ LoadSuperblock bs_six S1 (2 ^ 63) = Panic Mgo.bson_uint64
  ∧ ¬ (∀ (bs : BlockStore) (id : UUID) (generation : Z),
         generation ≠ LatestGeneration →
         (∀ d, d ∈ db bs → ¬ (Uuid d = uuid_String id ∧ Gen d = generation)) →
         LoadSuperblock bs id generation = Return None).
Proof.
  assert (2 ^ 63 ≠ LatestGeneration) as Hne by (vm_compute; discriminate).
  assert (∀ d, d ∈ db bs_six → ¬ (Uuid d = uuid_String S1 ∧ Gen d = 2 ^ 63))
    as Hnone.
  { apply Forall_forall.
    apply (bool_decide_unpack
             (Forall (λ d, ¬ (Uuid d = uuid_String S1 ∧ Gen d = 2 ^ 63)) (db bs_six))).
    vm_compute. exact I. }
  assert (LoadSuperblock bs_six S1 (2 ^ 63) = Panic Mgo.bson_uint64) as Hpanic
    by (vm_compute; reflexivity).
  split; [exact Hne|]. split; [exact Hnone|]. split; [exact Hpanic|].
  intros Hclaim. rewrite (Hclaim bs_six S1 (2 ^ 63) Hne Hnone) in Hpanic.
  discriminate Hpanic.
Qed.

End Evaluation.

(** * Further properties of the block store *)

Section Further.
Context `{Collab : Collaborators}.

(** ** Lock keys *)

Lemma UUIDToMapKey_length (id : UUID) : length (UUIDToMapKey id) = 16%nat.
Proof.
  unfold UUIDToMapKey. rewrite length_app, length_take, length_replicate. lia.
Qed.

Lemma UUIDToMapKey_16 (id : UUID) : length id = 16%nat → UUIDToMapKey id = id.
Proof.
  intros Hlen. unfold UUIDToMapKey. rewrite Hlen. simpl.
  rewrite app_nil_r. apply take_ge. lia.
Qed.

(** A key shorter than 16 bytes is filled up with zeros, a longer one is
    cut: identifiers that differ only there share a lock. *)
Lemma UUIDToMapKey_pads (id : UUID) :
  (length id < 16)%nat → UUIDToMapKey (id ++ [0]) = UUIDToMapKey id.
Proof.
  intros Hlen. unfold UUIDToMapKey.
  rewrite !take_ge by (rewrite ?length_app; simpl; lia).
  rewrite length_app. simpl. rewrite <- app_assoc. f_equal.
  replace (16 - length id)%nat with (S (16 - (length id + 1)))%nat by lia.
  done.
Qed.

(** X1. The lock key of a stream is always 16 bytes long, whatever the
    length of the identifier: its bytes are those of the identifier, cut
    after the 16th and filled up with zeros.  So two streams with 16-byte
    identifiers have the same lock key only if they are the same stream,
    while an identifier and the same identifier with a zero byte added at
    its end, when shorter than 16 bytes, share a key. *)
Theorem UUIDToMapKey_injective (id1 id2 : UUID) :
  length (UUIDToMapKey id1) = 16%nat
  ∧ (∀ i, (i < 16)%nat → UUIDToMapKey id1 !! i = Some (default 0 (id1 !! i)))
  ∧ (length id1 = 16%nat → length id2 = 16%nat →
     UUIDToMapKey id1 = UUIDToMapKey id2 → id1 = id2)
  ∧ ((length id1 < 16)%nat → UUIDToMapKey (id1 ++ [0]) = UUIDToMapKey id1).
Proof.
  split; [apply UUIDToMapKey_length|]. split; [|split].
  - intros i Hi. unfold UUIDToMapKey, UUID in *.
    destruct (decide (i < length id1)%nat) as [Hlt|Hge].
    + rewrite lookup_app_l by (rewrite length_take; lia).
      rewrite lookup_take_lt by lia.
      destruct (id1 !! i) as [x|] eqn:Hx; [done|].
      apply lookup_ge_None in Hx. lia.
    + rewrite lookup_app_r by (rewrite length_take; lia).
      rewrite length_take, lookup_replicate_2 by lia.
      by rewrite (proj2 (lookup_ge_None id1 i)) by lia.
  - intros H1 H2. by rewrite !UUIDToMapKey_16.
  - apply UUIDToMapKey_pads.
Qed.

(** ** A generation from [ObtainGeneration] to [Commit] *)

Lemma ObtainGeneration_holds_lock (bs bs1 : BlockStore) (id : UUID) (g : Generation) :
  ObtainGeneration bs id = (Return g, bs1) →
  ∃ m, _wlocks bs1 !! UUIDToMapKey id = Some m ∧ mutexes bs1 !! m = Some true.
Proof.
  unfold ObtainGeneration.
  destruct (_wlocks bs !! UUIDToMapKey id) as [mtx|] eqn:Hreg.
  - unfold Mutex_Lock.
    destruct (mutexes bs !! mtx) as [[|]|] eqn:Hm; [done| |done].
    intros [= _ <-]. exists mtx. simpl. split; [done|].
    unfold MutexHeap in *. apply list_lookup_insert_eq. by eapply lookup_lt_Some.
  - pose proof (Mutex_Lock_new (mutexes bs)) as Hlock.
    unfold Mutex_new in *. simpl in *. rewrite Hlock.
    intros [= _ <-]. exists (length (mutexes bs)). simpl.
    rewrite lookup_insert_eq. split; [done|].
    unfold MutexHeap in *.
    by rewrite (lookup_app_r (mutexes bs) [true]), Nat.sub_diag.
Qed.

(** What a call on an unflushed generation leaves alone, as long as the
    generation is unflushed afterwards. *)
Lemma apply_op_unflushed (g : Generation) (bs : BlockStore) (op : GenOp) :
  flushed (apply_op (g, bs) op).1 = false →
  flushed g = false
  ∧ db (apply_op (g, bs) op).2 = db bs
  ∧ _wlocks (apply_op (g, bs) op).2 = _wlocks bs
  ∧ mutexes (apply_op (g, bs) op).2 = mutexes bs
  ∧ Cur_SB (apply_op (g, bs) op).1 = Cur_SB g
  ∧ uuid (New_SB (apply_op (g, bs) op).1) = uuid (New_SB g)
  ∧ gen (New_SB (apply_op (g, bs) op).1) = gen (New_SB g).
Proof.
  destruct op; simpl; try done.
  - unfold AllocateCoreblock. destruct (allocateBlock_frame bs) as [al Hal].
    destruct (allocateBlock bs) as [a bs']. simpl in Hal. by subst bs'.
  - unfold AllocateVectorblock. destruct (allocateBlock_frame bs) as [al Hal].
    destruct (allocateBlock bs) as [a bs']. simpl in Hal. by subst bs'.
  - unfold Commit. destruct (flushed g) eqn:Hf; [simpl; congruence|].
    destruct (LinkAndStore _ _ _) as [amap disk]. simpl.
    destruct (amap !! root (New_SB g)) as [rootaddr|]; simpl; [|done].
    unfold Mgo.Insert. destruct (Mgo.encodable_doc _); simpl; [|done].
    destruct (_wlocks bs !! _) as [mtx|]; [|done].
    by destruct (Mutex_Unlock _ _).
Qed.

Lemma apply_ops_unflushed (ops : list GenOp) (g : Generation) (bs : BlockStore) :
  flushed (apply_ops ops (g, bs)).1 = false →
  flushed g = false
  ∧ db (apply_ops ops (g, bs)).2 = db bs
  ∧ _wlocks (apply_ops ops (g, bs)).2 = _wlocks bs
  ∧ mutexes (apply_ops ops (g, bs)).2 = mutexes bs
  ∧ Cur_SB (apply_ops ops (g, bs)).1 = Cur_SB g
  ∧ uuid (New_SB (apply_ops ops (g, bs)).1) = uuid (New_SB g)
  ∧ gen (New_SB (apply_ops ops (g, bs)).1) = gen (New_SB g).
Proof.
  revert g bs. induction ops as [|op ops IH]; intros g bs; [done|].
  unfold apply_ops in *. cbn [fold_left].
  pose proof (apply_op_unflushed g bs op) as Hstep.
  destruct (apply_op (g, bs) op) as [g1 bs1]. simpl in Hstep.
  intros Hf. destruct (IH g1 bs1 Hf) as (Hf1 & ? & ? & ? & ? & ? & ?).
  destruct (Hstep Hf1) as (? & ? & ? & ? & ? & ? & ?).
  repeat split; congruence.
Qed.

(** The state a successful [Commit] leaves behind. *)
Lemma Commit_success_state (g g2 : Generation) (bs bs2 : BlockStore)
    (address_map : gmap Z Z) :
  Commit g bs = (Return (Some address_map, None), g2, bs2) →
  ∃ m rootaddr,
    address_map !! root (New_SB g) = Some rootaddr
    ∧ New_SB g2 = set_root rootaddr (New_SB g)
    ∧ Cur_SB g2 = Cur_SB g
    ∧ cblocks g2 = [] ∧ vblocks g2 = []
    ∧ db bs2 = db bs ++ [superblock_doc (set_root rootaddr (New_SB g))]
    ∧ _wlocks bs2 = _wlocks bs
    ∧ _wlocks bs !! UUIDToMapKey (Generation_Uuid g) = Some m
    ∧ mutexes bs !! m = Some true
    ∧ mutexes bs2 = <[m := false]> (mutexes bs)
    ∧ gen (New_SB g) < 2 ^ 63 ∧ rootaddr < 2 ^ 63.
Proof.
  unfold Commit.
  destruct (flushed g); [done|].
  destruct (LinkAndStore _ _ _) as [amap disk]. simpl.
  destruct (amap !! root (New_SB g)) as [rootaddr|] eqn:Hroot; [|done]. simpl.
  unfold Mgo.Insert. destruct (Mgo.encodable_doc _) eqn:Henc; [|done]. simpl.
  apply encodable_doc_spec in Henc. simpl in Henc. destruct Henc.
  unfold Generation_Uuid. simpl.
  destruct (_wlocks bs !! _) as [mtx|] eqn:Hreg; [|done].
  unfold Mutex_Unlock. simpl.
  destruct (mutexes bs !! mtx) as [[|]|] eqn:Hm; [|done..].
  intros [= <- <- <-]. exists mtx, rootaddr.
  unfold Generation_Uuid. simpl. repeat split; done.
Qed.

(** The latest record of a stream, once a record of a larger version has
    been appended. *)
Lemma latest_after_append (c : Mgo.Collection) (id : UUID) (L r : Z) :
  (∀ d, d ∈ c → Uuid d = uuid_String id → Gen d < L) →
  Mgo.One (Mgo.Sort_gen_desc
             (Mgo.Find (c ++ [mk_fake_sblock (uuid_String id) L r false])
                (stream_selector id)))
  = Mgo.MgoOk (mk_fake_sblock (uuid_String id) L r false).
Proof.
  intros Hold.
  set (new := mk_fake_sblock (uuid_String id) L r false).
  assert (new ∈ Mgo.matching (c ++ [new]) (stream_selector id)) as Hnew.
  { apply elem_of_matching. split; [by apply matches_stream_selector|].
    apply elem_of_app. right. by apply list_elem_of_singleton. }
  pose proof (One_latest (c ++ [new]) id) as Hone.
  destruct (Mgo.One _) as [d| |e]; [| |done].
  - destruct Hone as [Hd Hmax]. f_equal.
    apply elem_of_matching in Hd as [Hm Hd]. apply matches_stream_selector in Hm.
    apply elem_of_app in Hd as [Hd|Hd]; [|by apply list_elem_of_singleton in Hd].
    specialize (Hold d Hd Hm). specialize (Hmax new Hnew). simpl in Hmax. lia.
  - rewrite Hone in Hnew. by apply not_elem_of_nil in Hnew.
Qed.

Lemma pending_version_above (bs : BlockStore) (id : UUID) (g : Generation) :
  (∀ d, d ∈ db bs → Uuid d = uuid_String id → 0 ≤ Gen d < 2 ^ 64 - 1) →
  load_generation bs id = Return g →
  Number g = gen (Cur_SB g) + 1
  ∧ ∀ d, d ∈ db bs → Uuid d = uuid_String id → Gen d < Number g.
Proof.
  intros Hrange. unfold load_generation, Number.
  pose proof (One_latest (db bs) id) as Hone.
  destruct (Mgo.One _) as [rs| |e]; [| |done].
  - intros [= <-]. simpl. destruct Hone as [Hrs Hmax].
    apply elem_of_matching in Hrs as [Hm Hrs]. apply matches_stream_selector in Hm.
    specialize (Hrange rs Hrs Hm).
    unfold wrap64, two64. rewrite Z.mod_small by lia. split; [done|].
    intros d Hd Hu.
    assert (Gen d ≤ Gen rs); [|lia].
    apply Hmax, elem_of_matching. split; [by apply matches_stream_selector|done].
  - intros [= <-]. simpl. split; [done|]. intros d Hd Hu.
    assert (d ∈ Mgo.matching (db bs) (stream_selector id)) as Hin.
    { apply elem_of_matching. split; [by apply matches_stream_selector|done]. }
    rewrite Hone in Hin. by apply not_elem_of_nil in Hin.
Qed.

(** The store a task leaves when it has obtained a generation, worked on it
    and committed it, with no other task in between. *)
Lemma sequential_commit (bs bs1 bs2 : BlockStore) (id : UUID) (g g2 : Generation)
    (ops : list GenOp) (address_map : gmap Z Z) :
  (∀ d, d ∈ db bs → Uuid d = uuid_String id → 0 ≤ Gen d < 2 ^ 64 - 1) →
  ObtainGeneration bs id = (Return g, bs1) →
  Commit (apply_ops ops (g, bs1)).1 (apply_ops ops (g, bs1)).2
    = (Return (Some address_map, None), g2, bs2) →
  db bs2 = db bs ++ [mk_fake_sblock (uuid_String id) (Number g) (root (New_SB g2)) false]
  ∧ Number g = gen (Cur_SB g) + 1
  ∧ (∀ d, d ∈ db bs → Uuid d = uuid_String id → Gen d < Number g)
  ∧ wlock_free bs2 id
  ∧ Number g < 2 ^ 63.
Proof.
  intros Hrange Hog Hcommit.
  destruct (ObtainGeneration_inv _ _ _ _ Hog) as [Hload Hdb1].
  destruct (pending_version_above bs id g Hrange Hload) as [Hnum Habove].
  apply load_generation_versions in Hload as (_ & Hcur & Hnew & _).
  destruct (Commit_success_inv _ _ _ _ _ Hcommit) as [Hf _].
  destruct (apply_ops_unflushed ops g bs1 Hf)
    as (_ & Hdb & Hreg & Hmtx & HCur & Hu & Hg).
  destruct (Commit_success_state _ _ _ _ _ Hcommit)
    as (m & rootaddr & _ & HNew2 & _ & _ & _ & Hdb2 & Hreg2 & Hm & Hheld & Hmtx2
        & Hsmall & _).
  split; [|split; [done|split; [done|split]]].
  - rewrite Hdb2, Hdb, Hdb1, HNew2. unfold superblock_doc, Number. simpl.
    by rewrite Hu, Hg, Hnew.
  - unfold wlock_free. rewrite Hreg2.
    unfold Generation_Uuid in Hm. rewrite HCur, Hcur in Hm. rewrite Hm, Hmtx2.
    unfold MutexHeap in *. apply list_lookup_insert_eq. by eapply lookup_lt_Some.
  - unfold Number. by rewrite <- Hg.
Qed.

(** X2. A generation obtained, worked on and committed by one task, with
    versions below the largest [uint64], is what [LoadSuperblock] then
    reports as the latest version of the stream, and as the version of its
    number: the next version after the one the generation started from,
    with the root the linker resolved, not unlinked. *)
Theorem Commit_then_LoadSuperblock (bs bs1 bs2 : BlockStore) (id : UUID)
    (g g2 : Generation) (ops : list GenOp) (address_map : gmap Z Z) :
  (∀ d, d ∈ db bs → Uuid d = uuid_String id → 0 ≤ Gen d < 2 ^ 64 - 1) →
  ObtainGeneration bs id = (Return g, bs1) →
  Commit (apply_ops ops (g, bs1)).1 (apply_ops ops (g, bs1)).2
    = (Return (Some address_map, None), g2, bs2) →
  LoadSuperblock bs2 id LatestGeneration
  = Return (Some {| uuid := id; gen := gen (Cur_SB g) + 1;
                    root := root (New_SB g2); unlinked := false |})
  ∧ LoadSuperblock bs2 id (Number g) = LoadSuperblock bs2 id LatestGeneration
  ∧ address_map !! root (New_SB (apply_ops ops (g, bs1)).1) = Some (root (New_SB g2)).
Proof.
  intros Hrange Hog Hcommit.
  destruct (sequential_commit _ _ _ _ _ _ _ _ Hrange Hog Hcommit)
    as (Hdb & Hnum & Habove & _ & Hsmall).
  destruct (Commit_success_state _ _ _ _ _ Hcommit)
    as (m & rootaddr & Hroot & HNew2 & _).
  assert (LoadSuperblock bs2 id LatestGeneration
          = Return (Some {| uuid := id; gen := gen (Cur_SB g) + 1;
                            root := root (New_SB g2); unlinked := false |}))
    as Hlatest.
  { unfold LoadSuperblock. rewrite bool_decide_eq_true_2 by done.
    rewrite Hdb, latest_after_append by done.
    unfold superblock_of. simpl. by rewrite Hnum. }
  split; [done|]. split; [|by rewrite HNew2].
  rewrite Hlatest. unfold LoadSuperblock. case_bool_decide as Hg.
  - rewrite Hdb, latest_after_append by done.
    unfold superblock_of. simpl. by rewrite Hnum.
  - pose proof (One_Find (db bs2) (exact_selector id (Number g))) as Hone.
    destruct (Mgo.One _) as [d| |e].
    + destruct Hone as (_ & [Hu Hgen]%matches_exact_selector & Hd & _).
      rewrite Hdb in Hd. apply elem_of_app in Hd as [Hd|Hd].
      * specialize (Habove d Hd Hu). lia.
      * apply list_elem_of_singleton in Hd as ->.
        unfold superblock_of. simpl. by rewrite Hnum.
    + exfalso. destruct Hone as [_ Hone].
      assert (Mgo.matches (exact_selector id (Number g))
                (mk_fake_sblock (uuid_String id) (Number g) (root (New_SB g2)) false)
              = true) as Hm by (by apply matches_exact_selector).
      rewrite Hone in Hm; [done|].
      rewrite Hdb. apply elem_of_app. right. by apply list_elem_of_singleton.
    + exfalso. destruct Hone as [Henc _].
      apply encodable_spec in Hsmall. unfold Mgo.encodable_selector in Henc.
      simpl in Henc. congruence.
Qed.

(** X3. Once a task has committed its generation, the write lock of the
    stream is free again: the next [ObtainGeneration] for the stream returns
    at once, with the committed version and root as its current superblock
    and the version after it pending. *)
Theorem Commit_then_ObtainGeneration (bs bs1 bs2 : BlockStore) (id : UUID)
    (g g2 : Generation) (ops : list GenOp) (address_map : gmap Z Z) :
  (∀ d, d ∈ db bs → Uuid d = uuid_String id → 0 ≤ Gen d < 2 ^ 64 - 1) →
  ObtainGeneration bs id = (Return g, bs1) →
  Commit (apply_ops ops (g, bs1)).1 (apply_ops ops (g, bs1)).2
    = (Return (Some address_map, None), g2, bs2) →
  ∃ g3 bs3,
    ObtainGeneration bs2 id = (Return g3, bs3)
    ∧ Cur_SB g3 = {| uuid := id; gen := gen (Cur_SB g) + 1;
                     root := root (New_SB g2); unlinked := false |}
    ∧ Number g3 = wrap64 (gen (Cur_SB g) + 2)
    ∧ flushed g3 = false.
Proof.
  intros Hrange Hog Hcommit.
  destruct (sequential_commit _ _ _ _ _ _ _ _ Hrange Hog Hcommit)
    as (Hdb & Hnum & Habove & Hfree & _).
  destruct (ObtainGeneration_returns bs2 id Hfree) as (bs3 & Hog3 & _).
  eexists _, bs3. rewrite Hog3. split.
  - f_equal. unfold load_generation.
    rewrite Hdb, latest_after_append by done. simpl. reflexivity.
  - simpl. rewrite Hnum. repeat split; try done.
    unfold Number. simpl. f_equal. lia.
Qed.

(** X11. When [Commit] panics because the linker did not resolve the root,
    the generation has lost its pending blocks, no record was written and
    the write lock of the stream stays held: a later [ObtainGeneration] for
    the stream waits. *)
Theorem Commit_root_panic_keeps_lock (bs bs1 bs2 : BlockStore) (id : UUID)
    (g g2 : Generation) (ops : list GenOp) :
  ObtainGeneration bs id = (Return g, bs1) →
  Commit (apply_ops ops (g, bs1)).1 (apply_ops ops (g, bs1)).2
    = (Panic "Could not obtain root address", g2, bs2) →
  ObtainGeneration bs2 id = (Blocks, bs2)
  ∧ db bs2 = db bs
  ∧ cblocks g2 = [] ∧ vblocks g2 = [] ∧ flushed g2 = false.
Proof.
  intros Hog Hcommit.
  destruct (ObtainGeneration_inv _ _ _ _ Hog) as [Hload Hdb1].
  destruct (ObtainGeneration_holds_lock _ _ _ _ Hog) as (m & Hm & Hheld).
  set (s := apply_ops ops (g, bs1)) in *.
  assert (flushed s.1 = false) as Hf.
  { destruct (flushed s.1) eqn:Hf; [|done].
    by rewrite (Commit_flushed _ _ Hf) in Hcommit. }
  destruct (apply_ops_unflushed ops g bs1 Hf) as (_ & Hdb & Hreg & Hmtx & _).
  fold s in Hdb, Hreg, Hmtx.
  revert Hcommit. unfold Commit. rewrite Hf.
  destruct (LinkAndStore _ _ _) as [amap disk]. simpl.
  destruct (amap !! root (New_SB s.1)) as [rootaddr|]; simpl.
  - unfold Mgo.Insert, Mgo.bson_uint64.
    destruct (Mgo.encodable_doc _); simpl; [|done].
    destruct (_wlocks s.2 !! _) as [mtx|]; [|done].
    by destruct (Mutex_Unlock _ _).
  - intros [= <- <-]. simpl. split; [|by rewrite Hdb, Hdb1].
    unfold ObtainGeneration. simpl. rewrite Hreg, Hm.
    unfold Mutex_Lock. by rewrite Hmtx, Hheld.
Qed.

(** X15. When the driver refuses the record of [Commit], the pending
    version or the resolved root being [2^63] or larger, [Commit] panics
    with the driver's error: the root has been resolved and the pending
    blocks are gone, but no record was written, and the write lock of the
    stream stays held, so that a later [ObtainGeneration] for the stream
    waits. *)
Theorem Commit_insert_panic_keeps_lock (bs bs1 bs2 : BlockStore) (id : UUID)
    (g g2 : Generation) (ops : list GenOp) :
  ObtainGeneration bs id = (Return g, bs1) →
  Commit (apply_ops ops (g, bs1)).1 (apply_ops ops (g, bs1)).2
    = (Panic Mgo.bson_uint64, g2, bs2) →
  ObtainGeneration bs2 id = (Blocks, bs2)
  ∧ db bs2 = db bs
  ∧ cblocks g2 = [] ∧ vblocks g2 = [] ∧ flushed g2 = false
  ∧ Number g2 = Number g
  ∧ (2 ^ 63 ≤ Number g ∨ 2 ^ 63 ≤ root (New_SB g2)).
Proof.
  intros Hog Hcommit.
  destruct (ObtainGeneration_inv _ _ _ _ Hog) as [Hload Hdb1].
  destruct (ObtainGeneration_holds_lock _ _ _ _ Hog) as (m & Hm & Hheld).
  set (s := apply_ops ops (g, bs1)) in *.
  assert (flushed s.1 = false) as Hf.
  { destruct (flushed s.1) eqn:Hf; [|done].
    by rewrite (Commit_flushed _ _ Hf) in Hcommit. }
  destruct (apply_ops_unflushed ops g bs1 Hf)
    as (_ & Hdb & Hreg & Hmtx & _ & _ & Hgen).
  fold s in Hdb, Hreg, Hmtx, Hgen.
  revert Hcommit. unfold Commit. rewrite Hf.
  destruct (LinkAndStore _ _ _) as [amap disk]. simpl.
  destruct (amap !! root (New_SB s.1)) as [rootaddr|]; simpl; [|done].
  unfold Mgo.Insert. destruct (Mgo.encodable_doc _) eqn:Henc; simpl.
  - destruct (_wlocks s.2 !! _) as [mtx|]; [|done].
    by destruct (Mutex_Unlock _ _).
  - intros [= <- <-]. simpl. split; [|split; [by rewrite Hdb, Hdb1|]].
    + unfold ObtainGeneration. simpl. rewrite Hreg, Hm.
      unfold Mutex_Lock. by rewrite Hmtx, Hheld.
    + do 3 (split; [done|]). unfold Number. simpl. split; [done|].
      destruct (decide (gen (New_SB g) < 2 ^ 63)) as [Hsmall|]; [|lia].
      destruct (decide (rootaddr < 2 ^ 63)) as [Hroot|]; [|lia].
      assert (Mgo.encodable_doc (superblock_doc (set_root rootaddr (New_SB s.1)))
              = true) as Hyes.
      { apply encodable_doc_spec. simpl. by rewrite Hgen. }
      congruence.
Qed.

(** ** Unlinking on any store *)

Lemma unlink_frame_refl (id : UUID) (sgen egen : Z) (d : fake_sblock) :
  unlink_frame id sgen egen d d.
Proof. by unfold unlink_frame. Qed.

Lemma unlink_frame_trans (id : UUID) (sgen egen : Z) (d1 d2 d3 : fake_sblock) :
  unlink_frame id sgen egen d1 d2 → unlink_frame id sgen egen d2 d3 →
  unlink_frame id sgen egen d1 d3.
Proof.
  unfold unlink_frame, in_unlink_range.
  intros (Hu & Hg & Hm & Hout) (Hu' & Hg' & Hm' & Hout').
  repeat split; [congruence|congruence|auto|].
  intros Hn. rewrite <- (Hout Hn). apply Hout'. by rewrite Hu, Hg.
Qed.

(** An upsert of [UnlinkGenerations] rewrites a document of the range, and
    only the mark can be new in it as far as stream and version go. *)
Lemma update_first_frame (id : UUID) (sgen egen : Z) (rs : fake_sblock)
    (c c' : Mgo.Collection) :
  in_unlink_range id sgen egen rs →
  Mgo.update_first (exact_selector id (Gen rs)) (mark_unlinked rs) c = Some c' →
  Forall2 (unlink_frame id sgen egen) c c'.
Proof.
  intros [Hu Hr]. revert c'. induction c as [|x c IH]; intros c'; [done|].
  cbn [Mgo.update_first]. destruct (Mgo.matches _ x) eqn:Hm.
  - intros [= <-]. constructor.
    + apply matches_exact_selector in Hm as [Hxu Hxg].
      unfold unlink_frame, in_unlink_range. simpl.
      repeat split; [congruence|congruence|].
      intros Hn. destruct Hn. rewrite Hxg. done.
    + apply Forall_Forall2_diag, Forall_forall. intros. apply unlink_frame_refl.
  - destruct (Mgo.update_first _ _ c) as [c1|]; [|done]. simpl.
    intros [= <-]. constructor; [apply unlink_frame_refl|by apply IH].
Qed.

Lemma update_first_is_Some (q : Mgo.selector) (d x : fake_sblock) (c : Mgo.Collection) :
  x ∈ c → Mgo.matches q x = true → is_Some (Mgo.update_first q d c).
Proof.
  induction c as [|a c IH]; intros Hx Hm; [by apply elem_of_nil in Hx|].
  cbn [Mgo.update_first]. destruct (Mgo.matches q a) eqn:Ha; [by eauto|].
  apply elem_of_cons in Hx as [->|Hx]; [congruence|].
  destruct (IH Hx Hm) as [c' ->]. by eauto.
Qed.

Lemma unlink_loop_frame (id : UUID) (sgen egen : Z) (docs : list fake_sblock)
    (c : Mgo.Collection) :
  (∀ rs, rs ∈ docs →
     in_unlink_range id sgen egen rs
     ∧ ∃ x, x ∈ c ∧ Uuid x = Uuid rs ∧ Gen x = Gen rs) →
  ∃ c', unlink_loop id docs c = (loop_outcome docs, c')
        ∧ Forall2 (unlink_frame id sgen egen) c c'.
Proof.
  revert c. induction docs as [|rs docs IH]; intros c Hdocs.
  - exists c. split; [done|].
    apply Forall_Forall2_diag, Forall_forall. intros. apply unlink_frame_refl.
  - cbn [unlink_loop]. unfold Mgo.Upsert, loop_outcome. cbn [forallb].
    rewrite Upsert_guard.
    destruct (Mgo.encodable_doc rs); simpl.
    2:{ exists c. split; [done|].
        apply Forall_Forall2_diag, Forall_forall. intros. apply unlink_frame_refl. }
    destruct (Hdocs rs) as [Hrs (x & Hx & Hxu & Hxg)]; [left|].
    destruct (update_first_is_Some (exact_selector id (Gen rs)) (mark_unlinked rs) x c)
      as [c1 Hc1]; [done| |].
    { apply matches_exact_selector. destruct Hrs as [Hu _]. split; congruence. }
    rewrite Hc1.
    pose proof (update_first_frame id sgen egen rs c c1 Hrs Hc1) as Hstep.
    destruct (IH c1) as (c' & Hloop & Hrest).
    { intros rs' Hrs'. destruct (Hdocs rs') as [Hin (y & Hy & Hyu & Hyg)]; [by right|].
      split; [done|].
      apply list_elem_of_lookup in Hy as [i Hi].
      destruct (Forall2_lookup_l _ _ _ _ _ Hstep Hi) as (y' & Hi' & Hu' & Hg' & _).
      exists y'. split; [by eapply list_elem_of_lookup_2|]. split; congruence. }
    exists c'. split; [done|].
    eapply Forall2_trans; [|exact Hstep|exact Hrest].
    intros ???. apply unlink_frame_trans.
Qed.

(** The loop runs to its end when the driver can encode every document of
    the range. *)
Lemma loop_outcome_unlink (c : Mgo.Collection) (id : UUID) (sgen egen : Z) :
  (∀ d, d ∈ c → in_unlink_range id sgen egen d → Root d < 2 ^ 63) →
  loop_outcome (Mgo.Iter (Mgo.Find c (unlink_selector id sgen egen))) = Return ().
Proof.
  intros Hroot. unfold loop_outcome. rewrite forallb_encodable_doc; [done|].
  intros d (Henc & Hm & Hd)%elem_of_Iter_Find.
  apply encodable_unlink_selector in Henc as [_ He].
  apply matches_unlink_selector in Hm as (Hu & Hr & _).
  apply encodable_doc_spec. split; [lia|]. by apply Hroot.
Qed.

(** X12. On any store, also one that holds several records of one stream
    and version, [UnlinkGenerations] inserts and removes nothing: every
    record keeps its place, stream and version, no mark is taken away, and
    the records of other streams and of versions outside [[sgen, egen)] are
    left as they are.  With an empty range, or a bound from [2^63] on, the
    store is unchanged.  The call returns [nil], or panics with the
    driver's error at a record it cannot encode; it returns [nil] when the
    records of the range have roots below [2^63] and when a bound is
    [2^63] or larger. *)
Theorem UnlinkGenerations_frame (bs : BlockStore) (id : UUID) (sgen egen : Z) :
  ∃ r c',
    UnlinkGenerations bs id sgen egen = (r, set_db c' bs)
    ∧ (r = Return None ∨ r = Panic Mgo.bson_uint64)
    ∧ ((∀ d, d ∈ db bs → in_unlink_range id sgen egen d → Root d < 2 ^ 63) →
       r = Return None)
    ∧ length c' = length (db bs)
    ∧ (∀ i d, db bs !! i = Some d →
         ∃ d', c' !! i = Some d'
           ∧ Uuid d' = Uuid d ∧ Gen d' = Gen d
           ∧ (Unlinked d = true → Unlinked d' = true)
           ∧ (¬ in_unlink_range id sgen egen d → d' = d))
    ∧ (egen ≤ sgen → c' = db bs)
    ∧ (2 ^ 63 ≤ sgen ∨ 2 ^ 63 ≤ egen → r = Return None ∧ c' = db bs).
Proof.
  unfold UnlinkGenerations.
  pose proof (loop_outcome_unlink (db bs) id sgen egen) as Hreturns.
  pose proof (Iter_Find (db bs) (unlink_selector id sgen egen)) as Hiter.
  destruct (unlink_loop_frame id sgen egen
              (Mgo.Iter (Mgo.Find (db bs) (unlink_selector id sgen egen))) (db bs))
    as (c' & Hloop & Hframe).
  { intros rs (_ & Hm & Hrs)%elem_of_Iter_Find.
    apply matches_unlink_selector in Hm as (Hu & Hr & _).
    split; [done|]. by exists rs. }
  rewrite Hloop.
  exists (match loop_outcome
                  (Mgo.Iter (Mgo.Find (db bs) (unlink_selector id sgen egen))) with
          | Return _ => Return None
          | Panic msg => Panic msg
          | Blocks => Blocks
          end), c'.
  split; [by destruct (loop_outcome _)|].
  split; [unfold loop_outcome; destruct (forallb _ _); by auto|].
  split; [intros Hroot; by rewrite Hreturns|].
  split; [symmetry; by eapply Forall2_length|].
  split; [|split].
  - intros i d Hi. by apply (Forall2_lookup_l _ _ _ _ _ Hframe Hi).
  - intros Hempty. symmetry. apply list_eq_Forall2.
    eapply Forall2_impl; [exact Hframe|].
    intros d d' (_ & _ & _ & Hout). symmetry. apply Hout.
    unfold in_unlink_range. lia.
  - intros Hbig.
    assert (Mgo.encodable_selector (unlink_selector id sgen egen) = false) as Henc.
    { destruct (Mgo.encodable_selector _) eqn:Henc; [|done].
      apply encodable_unlink_selector in Henc. lia. }
    rewrite Henc in Hiter. rewrite Hiter in Hloop |- *.
    cbn [unlink_loop] in Hloop. by injection Hloop as <-.
Qed.

(** ** Unlinking on a store with one record per stream and version *)

Lemma filter_ext_elem_of (P Q : fake_sblock → Prop) `{!∀ x, Decision (P x)}
    `{!∀ x, Decision (Q x)} (l : list fake_sblock) :
  (∀ x, x ∈ l → P x ↔ Q x) → filter P l = filter Q l.
Proof.
  induction l as [|a l IH]; intros Hext; [done|].
  rewrite !filter_cons, IH by (intros x Hx; apply Hext; by right).
  destruct (decide (P a)) as [Hp|Hp], (decide (Q a)) as [Hq|Hq]; try done.
  - destruct Hq. by apply (Hext a); [left|].
  - destruct Hp. by apply (Hext a); [left|].
Qed.

Lemma filter_all (P : fake_sblock → Prop) `{!∀ x, Decision (P x)}
    (l : list fake_sblock) :
  (∀ x, x ∈ l → P x) → filter P l = l.
Proof.
  induction l as [|a l IH]; intros Hall; [done|].
  rewrite filter_cons_True by (apply Hall; left).
  rewrite IH; [done|]. intros x Hx. apply Hall. by right.
Qed.

(** What the iterator of a second call holds: the documents the first
    call did not get to. *)
Lemma matching_mark_docs (P : list fake_sblock) (c : Mgo.Collection)
    (q : Mgo.selector) :
  Mgo.sel_unlinked q = Some false →
  (∀ x, x ∈ P → Mgo.matches q x = true) →
  Mgo.matching (mark_docs P <$> c) q = filter (λ x, x ∉ P) (Mgo.matching c q).
Proof.
  intros Hq HP. unfold Mgo.matching, Mgo.Collection in *.
  induction c as [|x c IH]; [done|].
  rewrite fmap_cons.
  destruct (decide (x ∈ P)) as [Hin|Hnin].
  - assert (mark_docs P x = mark_unlinked x) as ->
      by (unfold mark_docs; by rewrite decide_True).
    assert (Mgo.matches q (mark_unlinked x) = false) as Hm.
    { unfold Mgo.matches. rewrite Hq. simpl. by rewrite andb_false_r. }
    rewrite filter_cons_False by (rewrite Hm; simpl; tauto).
    rewrite (filter_cons_True (λ d, Is_true (Mgo.matches q d))) by (by rewrite HP).
    rewrite filter_cons_False by (by intros ?). done.
  - assert (mark_docs P x = x) as -> by (unfold mark_docs; by rewrite decide_False).
    destruct (Mgo.matches q x) eqn:Hm.
    + rewrite !(filter_cons_True (λ d, Is_true (Mgo.matches q d))) by (by rewrite Hm).
      rewrite filter_cons_True by done. by rewrite IH.
    + by rewrite !(filter_cons_False (λ d, Is_true (Mgo.matches q d)))
        by (rewrite Hm; simpl; tauto).
Qed.

Lemma upserted_rest (docs : list fake_sblock) :
  NoDup docs →
  upserted (filter (λ x, x ∉ upserted docs) docs) = []
  ∧ loop_outcome (filter (λ x, x ∉ upserted docs) docs) = loop_outcome docs.
Proof.
  induction docs as [|d docs IH]; intros Hnd; [done|].
  apply NoDup_cons in Hnd as [Hfresh Hnd].
  cbn [upserted]. destruct (Mgo.encodable_doc d) eqn:Henc.
  - rewrite filter_cons_False by (intros Hn; apply Hn; left).
    rewrite (filter_ext_elem_of _ (λ x, x ∉ upserted docs)).
    + destruct (IH Hnd) as [-> ->]. split; [done|].
      unfold loop_outcome. cbn [forallb]. by rewrite Henc.
    + intros x Hx. rewrite not_elem_of_cons. split; [by intros [_ ?]|].
      intros Hn. split; [|done]. by intros ->.
  - rewrite (filter_all (λ x, x ∉ [])) by (intros x _; apply not_elem_of_nil).
    cbn [upserted]. by rewrite Henc.
Qed.

(** X7. On a store with one record per stream and version, unlinking a
    range a second time changes nothing and ends as the first call did:
    with [nil] when the driver can encode the records of the range, their
    roots being below [2^63], and else with the panic of the first call, at
    the same record. *)
Theorem UnlinkGenerations_idempotent (bs : BlockStore) (id : UUID) (sgen egen : Z) :
  sb_unique (db bs) →
  UnlinkGenerations (UnlinkGenerations bs id sgen egen).2 id sgen egen
  = ((UnlinkGenerations bs id sgen egen).1, (UnlinkGenerations bs id sgen egen).2)
  ∧ ((∀ d, d ∈ db bs → in_unlink_range id sgen egen d → Root d < 2 ^ 63) →
     (UnlinkGenerations bs id sgen egen).1 = Return None).
Proof.
  intros Hu.
  pose proof (UnlinkGenerations_keeps_unique bs id sgen egen Hu) as Hu'.
  rewrite (UnlinkGenerations_unique_run _ _ _ _ Hu').
  rewrite (UnlinkGenerations_unique_run _ _ _ _ Hu). cbn [fst snd].
  set (q := unlink_selector id sgen egen).
  set (docs := Mgo.Iter (Mgo.Find (db bs) q)).
  split; [|intros Hroot; unfold docs, q; by rewrite loop_outcome_unlink].
  assert (Mgo.Iter (Mgo.Find (db (set_db (mark_docs (upserted docs) <$> db bs) bs)) q)
          = filter (λ x, x ∉ upserted docs) docs) as ->.
  { unfold docs. rewrite !Iter_Find. cbn [db set_db].
    destruct (Mgo.encodable_selector q) eqn:Henc; [|done].
    apply matching_mark_docs; [done|].
    intros x Hx%upserted_subseteq. by apply elem_of_matching in Hx as [? _]. }
  destruct (upserted_rest docs) as [-> ->].
  { by apply NoDup_Iter_Find, sb_unique_NoDup. }
  cbn [db set_db]. by rewrite mark_docs_nil.
Qed.

(** The latest record of a stream has the same version and root whatever
    has been done to the marks. *)
Lemma latest_fmap (f : fake_sblock → fake_sblock) (id' : UUID) (c : Mgo.Collection) :
  sb_unique c →
  (∀ x, Uuid (f x) = Uuid x ∧ Gen (f x) = Gen x ∧ Root (f x) = Root x) →
  match Mgo.One (Mgo.Sort_gen_desc (Mgo.Find c (stream_selector id'))),
        Mgo.One (Mgo.Sort_gen_desc (Mgo.Find (f <$> c) (stream_selector id')))
  with
  | Mgo.MgoOk d, Mgo.MgoOk d' => Gen d' = Gen d ∧ Root d' = Root d
  | Mgo.ErrNotFound, Mgo.ErrNotFound => True
  | _, _ => False
  end.
Proof.
  intros Hu Hf.
  pose proof (One_latest c id') as H1.
  pose proof (One_latest (f <$> c) id') as H2.
  rewrite (matching_fmap f c (stream_selector id')) in H2;
    [|intros x; by destruct (Hf x) as (? & ? & _)|done].
  destruct (Mgo.One (Mgo.Sort_gen_desc (Mgo.Find c _))) as [d| |e]; [| |done].
  - destruct H1 as [Hd Hmax].
    destruct (Mgo.One _) as [d'| |e]; [| |done].
    + destruct H2 as [Hd' Hmax'].
      apply list_elem_of_fmap in Hd' as (x & -> & Hx).
      destruct (Hf x) as (Hxu & Hxg & Hxr).
      assert (x = d) as ->; [|done].
      apply elem_of_matching in Hd as [Hdm Hd], Hx as [Hxm Hx].
      apply matches_stream_selector in Hdm, Hxm.
      apply (sb_unique_inj c); [done..|]. unfold sb_key. f_equal; [congruence|].
      assert (Gen x ≤ Gen d).
      { apply Hmax, elem_of_matching. split; [by apply matches_stream_selector|done]. }
      assert (Gen (f d) ≤ Gen (f x)).
      { apply Hmax', list_elem_of_fmap_2, elem_of_matching.
        split; [by apply matches_stream_selector|done]. }
      destruct (Hf d) as (_ & Hdg & _). lia.
    + apply fmap_nil_inv in H2. rewrite H2 in Hd. by apply not_elem_of_nil in Hd.
  - rewrite H1 in H2.
    destruct (Mgo.One _) as [d'| |e]; [|done..].
    destruct H2 as [Hd' _]. by apply elem_of_nil in Hd'.
Qed.

(** X6. On a store with one record per stream and version, unlinking does
    not change what a writer builds on: for every stream,
    [ObtainGeneration] answers after the unlinking as it would have before,
    with the same current and pending superblocks, also when the latest
    version of the stream is among the unlinked ones. *)
Theorem UnlinkGenerations_keeps_latest (bs : BlockStore) (id id' : UUID)
    (sgen egen : Z) :
  sb_unique (db bs) →
  (ObtainGeneration (UnlinkGenerations bs id sgen egen).2 id').1
  = (ObtainGeneration bs id').1.
Proof.
  intros Hu. rewrite (UnlinkGenerations_unique_run _ _ _ _ Hu). cbn [snd].
  set (P := upserted (Mgo.Iter (Mgo.Find (db bs) (unlink_selector id sgen egen)))).
  assert (∀ b1 b2 : BlockStore,
            db b1 = mark_docs P <$> db bs → db b2 = db bs →
            load_generation b1 id' = load_generation b2 id') as Hload.
  { intros b1 b2 H1 H2. unfold load_generation. rewrite H1, H2.
    pose proof (latest_fmap (mark_docs P) id' (db bs) Hu (mark_docs_fields P))
      as Hlatest.
    destruct (Mgo.One (Mgo.Sort_gen_desc (Mgo.Find (db bs) _))) as [d| |e];
      destruct (Mgo.One _) as [d'| |e']; try done.
    destruct Hlatest as [-> ->]. done. }
  unfold ObtainGeneration. cbn [_wlocks mutexes set_db].
  destruct (_wlocks bs !! UUIDToMapKey id') as [mtx|].
  - destruct (Mutex_Lock (mutexes bs) mtx); cbn [fst]; [by apply Hload|done].
  - unfold Mutex_new. cbn [fst snd].
    destruct (Mutex_Lock _ _); cbn [fst]; [by apply Hload|done].
Qed.

(** ** Removing a stream *)

Lemma Find_after_RemoveAll_same (c : Mgo.Collection) (id : UUID) (q : Mgo.selector) :
  Mgo.sel_uuid q = uuid_String id →
  Mgo.matching (filter (λ d, ¬ Is_true (Mgo.matches (stream_selector id) d)) c) q
  = [].
Proof.
  intros Hq. apply elem_of_nil_inv. intros d [Hm Hd]%elem_of_matching.
  apply list_elem_of_filter in Hd as [Hn _]. apply Hn, Is_true_true.
  apply matches_stream_selector. apply matches_spec in Hm as [Hu _]. congruence.
Qed.

Lemma Find_after_RemoveAll_other (c : Mgo.Collection) (id : UUID) (q : Mgo.selector) :
  Mgo.sel_uuid q ≠ uuid_String id →
  Mgo.matching (filter (λ d, ¬ Is_true (Mgo.matches (stream_selector id) d)) c) q
  = Mgo.matching c q.
Proof.
  intros Hq. unfold Mgo.matching. apply list_filter_filter_l.
  intros d Hm%Is_true_true Hn%Is_true_true.
  apply matches_stream_selector in Hn. apply matches_spec in Hm as [Hu _]. congruence.
Qed.

(** X8. [DEBUG_DELETE_UUID(id)] returns normally, also when the stream has
    no record.  Afterwards [LoadSuperblock] finds no version of the stream,
    neither as the latest nor under a version below [2^63] (a version from
    [2^63] on makes it panic, as on every store), and a writer of the
    stream starts over from version 0; what [LoadSuperblock] answers for a
    stream of another name is unchanged, and the lock registry, the mutexes
    and the storage are left as they are. *)
Theorem DEBUG_DELETE_UUID_removes_stream (bs : BlockStore) (id : UUID) :
  ∃ bs',
    DEBUG_DELETE_UUID bs id = (Return (), bs')
    ∧ (∀ v, v = LatestGeneration ∨ v < 2 ^ 63 →
         LoadSuperblock bs' id v = Return None)
    ∧ (∀ v, v ≠ LatestGeneration → 2 ^ 63 ≤ v →
         LoadSuperblock bs' id v = Panic Mgo.bson_uint64)
    ∧ (∀ id' v, uuid_String id' ≠ uuid_String id →
         LoadSuperblock bs' id' v = LoadSuperblock bs id' v)
    ∧ (ObtainGeneration bs' id).1
      = match (ObtainGeneration bs id).1 with
        | Return _ => Return (open_generation (NewSuperblock id))
        | r => r
        end
    ∧ _wlocks bs' = _wlocks bs ∧ mutexes bs' = mutexes bs ∧ store bs' = store bs.
Proof.
  eexists. split; [reflexivity|]. cbn [db set_db _wlocks mutexes store].
  split; [|split; [|split; [|split; [|done]]]].
  - intros v Hv. unfold LoadSuperblock. cbn [db set_db]. case_bool_decide as Hlatest.
    + rewrite Find_encodable by done.
      by rewrite Find_after_RemoveAll_same.
    + destruct Hv as [?|Hv]; [done|]. apply encodable_spec in Hv.
      rewrite Find_encodable by done.
      by rewrite Find_after_RemoveAll_same.
  - intros v Hlatest Hv. unfold LoadSuperblock. cbn [db set_db].
    rewrite bool_decide_eq_false_2 by done.
    rewrite Find_not_encodable; [done|].
    destruct (Mgo.encodable_selector _) eqn:Henc; [|done].
    apply (encodable_spec v) in Henc. lia.
  - intros id' v Hne. unfold LoadSuperblock, Mgo.Find. cbn [db set_db].
    by rewrite !Find_after_RemoveAll_other.
  - assert (∀ b1 b2 : BlockStore,
              db b1 = filter (λ d, ¬ Is_true (Mgo.matches (stream_selector id) d)) (db bs) →
              match load_generation b2 id with
              | Return _ => load_generation b1 id
                            = Return (open_generation (NewSuperblock id))
              | _ => False
              end) as Hload.
    { intros b1 b2 H1. destruct (load_generation_total b2 id) as (g & -> & _).
      unfold load_generation. rewrite H1.
      rewrite Find_encodable by done.
      by rewrite Find_after_RemoveAll_same. }
    unfold ObtainGeneration. cbn [_wlocks mutexes set_db].
    destruct (_wlocks bs !! UUIDToMapKey id) as [mtx|].
    + destruct (Mutex_Lock (mutexes bs) mtx) as [h|]; [|done]. cbn [fst].
      match goal with
      | |- load_generation ?b1 id = match load_generation ?b2 id with _ => _ end =>
          specialize (Hload b1 b2 eq_refl); by destruct (load_generation b2 id)
      end.
    + unfold Mutex_new. cbn [fst snd].
      destruct (Mutex_Lock _ _) as [h'|]; cbn [fst]; [|done].
      match goal with
      | |- load_generation ?b1 id = match load_generation ?b2 id with _ => _ end =>
          specialize (Hload b1 b2 eq_refl); by destruct (load_generation b2 id)
      end.
Qed.

(** ** The blocks of a generation *)

Section Allocations.
Hypothesis base_range : 0 ≤ RELOCATION_BASE < 2 ^ 64.

Lemma Commit_pending (g : Generation) (bs : BlockStore) :
  alloc (Commit g bs).2 = alloc bs
  ∧ ((cblocks (Commit g bs).1.2 = cblocks g ∧ vblocks (Commit g bs).1.2 = vblocks g)
     ∨ (cblocks (Commit g bs).1.2 = [] ∧ vblocks (Commit g bs).1.2 = [])).
Proof.
  unfold Commit. destruct (flushed g); [by auto|].
  destruct (LinkAndStore _ _ _) as [amap disk]. simpl.
  destruct (amap !! root (New_SB g)) as [rootaddr|]; simpl; [|by auto].
  unfold Mgo.Insert. destruct (Mgo.encodable_doc _); simpl; [|by auto].
  destruct (_wlocks bs !! _) as [mtx|]; [|by auto].
  destruct (Mutex_Unlock _ _); by auto.
Qed.

(** The invariant of a generation's pending blocks while the allocator has
    handed out addresses [k] to [j - 1] to it. *)
Lemma apply_ops_pending (ops : list GenOp) (g : Generation) (bs : BlockStore)
    (k j : nat) (N : Z) :
  (k ≤ j)%nat →
  alloc_inv j (alloc bs) →
  Z.of_nat (j + length ops) ≤ 2 ^ 64 - RELOCATION_BASE →
  Number g = N →
  NoDup (pending_addresses g) →
  (∀ a, a ∈ pending_addresses g →
     ∃ i : nat, (k ≤ i < j)%nat ∧ a = RELOCATION_BASE + Z.of_nat i) →
  (∀ cb, cb ∈ cblocks g → cb_Generation cb = N) →
  (∀ vb, vb ∈ vblocks g → vb_Generation vb = N) →
  let g' := (apply_ops ops (g, bs)).1 in
  NoDup (pending_addresses g')
  ∧ (∀ a, a ∈ pending_addresses g' →
       ∃ i : nat, (k ≤ i < j + length ops)%nat ∧ a = RELOCATION_BASE + Z.of_nat i)
  ∧ (∀ cb, cb ∈ cblocks g' → cb_Generation cb = N)
  ∧ (∀ vb, vb ∈ vblocks g' → vb_Generation vb = N).
Proof.
  revert g bs j. induction ops as [|op ops IH]; intros g bs j Hkj Hinv Hroom HN Hnd Hin Hcb Hvb.
  { simpl. repeat split; try done. intros a Ha.
    destruct (Hin a Ha) as (i & ? & ?). exists i. split; [lia|done]. }
  unfold apply_ops in *. cbn [fold_left length] in *.
  assert (∀ g1 bs1 j1,
            (j ≤ j1 ≤ S j)%nat → alloc_inv j1 (alloc bs1) → Number g1 = N →
            NoDup (pending_addresses g1) →
            (∀ a, a ∈ pending_addresses g1 →
               ∃ i : nat, (k ≤ i < j1)%nat ∧ a = RELOCATION_BASE + Z.of_nat i) →
            (∀ cb, cb ∈ cblocks g1 → cb_Generation cb = N) →
            (∀ vb, vb ∈ vblocks g1 → vb_Generation vb = N) →
            let g' := (fold_left apply_op ops (g1, bs1)).1 in
            NoDup (pending_addresses g')
            ∧ (∀ a, a ∈ pending_addresses g' →
                 ∃ i : nat, (k ≤ i < j + S (length ops))%nat
                            ∧ a = RELOCATION_BASE + Z.of_nat i)
            ∧ (∀ cb, cb ∈ cblocks g' → cb_Generation cb = N)
            ∧ (∀ vb, vb ∈ vblocks g' → vb_Generation vb = N)) as Hnext.
  { intros g1 bs1 j1 Hj Hinv1 HN1 Hnd1 Hin1 Hcb1 Hvb1.
    destruct (IH g1 bs1 j1 ltac:(lia) Hinv1 ltac:(lia) HN1 Hnd1 Hin1 Hcb1 Hvb1)
      as (? & Hr & ? & ?).
    repeat split; try done. intros a Ha.
    destruct (Hr a Ha) as (i & ? & ?). exists i. split; [lia|done]. }
  assert (∀ a, a ∈ pending_addresses g →
            a ≠ RELOCATION_BASE + Z.of_nat j) as Hfresh.
  { intros a Ha. destruct (Hin a Ha) as (i & ? & ->). lia. }
  destruct op; simpl.
  - apply (Hnext _ bs j); try done. lia.
  - apply (Hnext _ bs j); try done. lia.
  - destruct (allocateBlock_inv base_range j bs Hinv) as [Ha Hinv1].
    rewrite nth_address_small in Ha by lia.
    unfold AllocateCoreblock.
    destruct (allocateBlock bs) as [a bs1]. simpl in Ha, Hinv1. subst a.
    apply (Hnext _ bs1 (S j)); simpl; try done; [lia| | | ].
    + unfold pending_addresses in *. simpl. rewrite fmap_app. simpl.
      rewrite <- app_assoc. simpl.
      eapply (NoDup_Permutation_proper _ _ (Permutation_middle _ _ _)).
      apply NoDup_cons. split; [|done].
      intros Hbad. by apply (Hfresh _ Hbad).
    + unfold pending_addresses in *. simpl. intros a Ha.
      rewrite fmap_app, <- app_assoc in Ha. simpl in Ha.
      rewrite <- Permutation_middle in Ha.
      apply elem_of_cons in Ha as [->|Ha].
      * exists j. split; [lia|done].
      * destruct (Hin a Ha) as (i & ? & ?). exists i. split; [lia|done].
    + intros cb [Hc|Hc]%elem_of_app; [by apply Hcb|].
      by apply list_elem_of_singleton in Hc as ->.
  - destruct (allocateBlock_inv base_range j bs Hinv) as [Ha Hinv1].
    rewrite nth_address_small in Ha by lia.
    unfold AllocateVectorblock.
    destruct (allocateBlock bs) as [a bs1]. simpl in Ha, Hinv1. subst a.
    apply (Hnext _ bs1 (S j)); simpl; try done; [lia| | | ].
    + unfold pending_addresses in *. simpl. rewrite fmap_app. simpl.
      rewrite app_assoc.
      eapply (NoDup_Permutation_proper _ _ (Permutation_cons_append _ _)).
      apply NoDup_cons. split; [|done].
      intros Hbad. by apply (Hfresh _ Hbad).
    + unfold pending_addresses in *. simpl. intros a Ha.
      rewrite fmap_app, app_assoc in Ha. simpl in Ha.
      apply elem_of_app in Ha as [Ha|Ha].
      * destruct (Hin a Ha) as (i & ? & ?). exists i. split; [lia|done].
      * apply list_elem_of_singleton in Ha as ->.
        exists j. split; [lia|done].
    + intros vb [Hv|Hv]%elem_of_app; [by apply Hvb|].
      by apply list_elem_of_singleton in Hv as ->.
  - pose proof (Commit_pending g bs) as [Halloc Hpend].
    pose proof (Commit_versions g bs) as [_ Hgen].
    destruct (Commit g bs) as [[r g1] bs1]. simpl in *.
    apply (Hnext g1 bs1 j); [lia|by rewrite Halloc|unfold Number in *; congruence| | | |].
    + unfold pending_addresses in *.
      destruct Hpend as [[Hc Hv]|[Hc Hv]]; rewrite Hc, Hv;
        [done|apply NoDup_nil_2].
    + unfold pending_addresses in *. intros a Ha. apply Hin.
      destruct Hpend as [[Hc Hv]|[Hc Hv]]; rewrite Hc, Hv in Ha;
        [done|by apply elem_of_nil in Ha].
    + intros cb Hin1. apply Hcb.
      destruct Hpend as [[Hc _]|[Hc _]]; rewrite Hc in Hin1;
        [done|by apply elem_of_nil in Hin1].
    + intros vb Hin1. apply Hvb.
      destruct Hpend as [[_ Hv]|[_ Hv]]; rewrite Hv in Hin1;
        [done|by apply elem_of_nil in Hin1].
Qed.

Lemma ObtainGeneration_fresh_generation (bs bs1 : BlockStore) (id : UUID)
    (g : Generation) :
  ObtainGeneration bs id = (Return g, bs1) →
  alloc bs1 = alloc bs ∧ cblocks g = [] ∧ vblocks g = [].
Proof.
  intros Hog.
  assert (cblocks g = [] ∧ vblocks g = []) as Hempty.
  { apply ObtainGeneration_inv in Hog as [Hload _].
    unfold load_generation in Hload.
    destruct (Mgo.One _) as [rs| |e]; by simplify_eq. }
  split; [|done]. revert Hog. unfold ObtainGeneration.
  destruct (_wlocks bs !! UUIDToMapKey id) as [mtx|].
  - destruct (Mutex_Lock _ _); [|done]. by intros [= _ <-].
  - unfold Mutex_new. simpl. destruct (Mutex_Lock _ _); [|done]. by intros [= _ <-].
Qed.

(** X9. The blocks a generation has pending, after any calls on it, have
    pairwise distinct addresses, each one of the addresses the allocator
    handed out since the generation was obtained, and carry the number of
    the generation, as long as the allocator's counter does not pass the
    largest [uint64]. *)
Theorem pending_blocks_distinct (bs bs1 : BlockStore) (id : UUID) (g : Generation)
    (k : nat) (ops : list GenOp) :
  ObtainGeneration bs id = (Return g, bs1) →
  alloc_inv k (alloc bs) →
  Z.of_nat (k + length ops) ≤ 2 ^ 64 - RELOCATION_BASE →
  let g' := (apply_ops ops (g, bs1)).1 in
  NoDup (pending_addresses g')
  ∧ (∀ a, a ∈ pending_addresses g' →
       ∃ i : nat, (k ≤ i < k + length ops)%nat ∧ a = RELOCATION_BASE + Z.of_nat i)
  ∧ (∀ cb, cb ∈ cblocks g' → cb_Generation cb = Number g)
  ∧ (∀ vb, vb ∈ vblocks g' → vb_Generation vb = Number g).
Proof.
  intros Hog Hinv Hroom.
  destruct (ObtainGeneration_fresh_generation _ _ _ _ Hog) as (Halloc & Hc & Hv).
  apply apply_ops_pending; [done|by rewrite Halloc|done|done|..];
    unfold pending_addresses; rewrite ?Hc, ?Hv; simpl.
  - apply NoDup_nil_2.
  - intros a Ha. by apply elem_of_nil in Ha.
  - intros cb Ha. by apply elem_of_nil in Ha.
  - intros vb Ha. by apply elem_of_nil in Ha.
Qed.

End Allocations.

(** ** Tasks on a stream whose mutex is registered *)

Lemma holders_insert (tasks : list Task) (i : nat) (t t' : Task) :
  tasks !! i = Some t →
  (holders (<[i := t']> tasks) + (if lock_holder t then 1 else 0)
   = holders tasks + (if lock_holder t' then 1 else 0))%nat.
Proof.
  intros Hi. rewrite insert_take_drop by (by eapply lookup_lt_Some).
  rewrite <- (take_drop_middle tasks i t Hi) at 3.
  unfold holders. rewrite !filter_app, !filter_cons, !length_app.
  destruct (lock_holder t), (lock_holder t'); simpl; lia.
Qed.

Lemma holders_lookup (tasks : list Task) (i : nat) (t : Task) :
  tasks !! i = Some t → lock_holder t = true → (1 ≤ holders tasks)%nat.
Proof.
  intros Hi Ht. rewrite <- (take_drop_middle tasks i t Hi).
  unfold holders. rewrite filter_app, filter_cons, length_app, Ht. simpl. lia.
Qed.

Lemma open_generations_le_holders (id : UUID) (tasks : list Task) :
  (open_generations id tasks ≤ holders tasks)%nat.
Proof.
  unfold open_generations, holders.
  induction tasks as [|t tasks IH]; [done|].
  rewrite !filter_cons. destruct t; simpl in *; try lia.
  destruct (bool_decide _ && negb _); simpl; lia.
Qed.

(** [Commit] leaves the registry as it is and takes no mutex away. *)
Lemma Commit_lock_frame (g : Generation) (bs : BlockStore) (m : nat) (b : bool) :
  mutexes bs !! m = Some b →
  _wlocks (Commit g bs).2 = _wlocks bs
  ∧ ∃ b', mutexes (Commit g bs).2 !! m = Some b'.
Proof.
  intros Hm. unfold Commit. destruct (flushed g); [by eauto|].
  destruct (LinkAndStore _ _ _) as [amap disk]. simpl.
  destruct (amap !! root (New_SB g)) as [rootaddr|]; simpl; [|by eauto].
  unfold Mgo.Insert. destruct (Mgo.encodable_doc _); simpl; [|by eauto].
  destruct (_wlocks bs !! _) as [mtx|]; [|by eauto].
  unfold Mutex_Unlock. destruct (mutexes bs !! mtx) as [[|]|] eqn:Hmtx; [|by eauto..].
  simpl. split; [done|]. unfold MutexHeap in *.
  rewrite list_lookup_insert. case_decide; by eauto.
Qed.

Lemma sched_step_lock_inv (id : UUID) (m i : nat) (cfg cfg' : Config) :
  lock_inv id m cfg → sched_step cfg i = Some cfg' → lock_inv id m cfg'.
Proof.
  destruct cfg as [bs tasks]. unfold lock_inv, sched_step. simpl.
  intros (Hreg & Huses & Hle & b & Hm & Hfree).
  destruct (tasks !! i) as [t|] eqn:Hi; [|done]. simpl.
  pose proof (Forall_lookup_1 _ _ _ _ Huses Hi) as Ht.
  pose proof (holders_insert tasks i t) as Hcount.
  destruct t as [i1|i1|i1 m1|i1 m1|i1|g|msg|]; simpl in Ht; try done.
  - (* the lookup finds the registered mutex *)
    subst i1. simpl. rewrite Hreg. simpl. intros [= <-]. simpl.
    specialize (Hcount (AtLock id m) Hi). simpl in Hcount.
    split; [done|]. split; [by apply Forall_insert|].
    split; [lia|]. exists b. split; [done|]. intros Hb. specialize (Hfree Hb). lia.
  - (* the lock is taken only when the mutex is free *)
    destruct Ht as [-> ->]. simpl. unfold Mutex_Lock. rewrite Hm.
    destruct b; [done|]. simpl. intros [= <-]. simpl.
    specialize (Hcount (AtLoad id) Hi). simpl in Hcount.
    specialize (Hfree eq_refl).
    split; [done|]. split; [by apply Forall_insert|].
    split; [lia|]. exists true. split; [|done].
    unfold MutexHeap in *. apply list_lookup_insert_eq. by eapply lookup_lt_Some.
  - (* the generation is built under the lock *)
    subst i1. simpl.
    destruct (load_generation_total bs id) as (g & Hload & Hu & Hf).
    rewrite Hload. simpl. intros [= <-]. simpl.
    specialize (Hcount (Holding g) Hi). simpl in Hcount.
    split; [done|]. split; [by apply Forall_insert|].
    split; [lia|]. exists b. split; [done|]. intros Hb. specialize (Hfree Hb). lia.
  - (* the commit gives the lock back, or crashes holding it *)
    destruct Ht as [Hu Hf]. simpl.
    pose proof (holders_lookup tasks i (Holding g) Hi eq_refl) as Hone.
    destruct (Commit_lock_frame g bs m b Hm) as [Hreg' (b' & Hm')].
    destruct (Commit g bs) as [[r g'] bs1]. simpl in Hreg', Hm'.
    destruct r as [v|msg|]; [| |done]; simpl; intros [= <-]; simpl.
    + specialize (Hcount Finished Hi). simpl in Hcount.
      split; [congruence|]. split; [by apply Forall_insert|].
      split; [lia|]. exists b'. split; [done|]. intros _. lia.
    + specialize (Hcount (Crashed msg) Hi). simpl in Hcount.
      split; [congruence|]. split; [by apply Forall_insert|].
      split; [lia|]. exists b'. split; [done|]. intros _. lia.
Qed.

Lemma run_schedule_lock_inv (id : UUID) (m : nat) (sched : list nat)
    (cfg cfg' : Config) :
  lock_inv id m cfg → run_schedule sched cfg = Some cfg' → lock_inv id m cfg'.
Proof.
  revert cfg. induction sched as [|i sched IH]; intros cfg Hinv; simpl.
  - by intros [= <-].
  - destruct (sched_step cfg i) as [cfg1|] eqn:Hstep; [|done]. simpl.
    apply IH. by eapply sched_step_lock_inv.
Qed.

Lemma holders_at_lookup (id : UUID) (n : nat) :
  holders (replicate n (AtLookup id)) = 0%nat.
Proof.
  unfold holders. induction n as [|n IH]; [done|].
  cbn [replicate]. rewrite filter_cons_False; [done|]. simpl. tauto.
Qed.

(** X10. Once the registry holds the mutex of a stream, the write lock
    does its work under every schedule: however many tasks call
    [ObtainGeneration] for the stream and however their steps interleave,
    at most one of them is past the lock, so at most one generation of the
    stream is open, and while one is the mutex is held. *)
Theorem registered_lock_excludes (bs bs' : BlockStore) (id : UUID) (m n : nat)
    (sched : list nat) (tasks' : list Task) :
  _wlocks bs !! UUIDToMapKey id = Some m →
  mutexes bs !! m = Some false →
  run_schedule sched (bs, replicate n (AtLookup id)) = Some (bs', tasks') →
  (open_generations id tasks' ≤ 1)%nat
  ∧ (holders tasks' ≤ 1)%nat
  ∧ (holders tasks' = 1%nat → mutexes bs' !! m = Some true)
  ∧ _wlocks bs' !! UUIDToMapKey id = Some m.
Proof.
  intros Hreg Hm Hrun.
  assert (lock_inv id m (bs, replicate n (AtLookup id))) as Hinit.
  { unfold lock_inv. simpl.
    pose proof (holders_at_lookup id n) as H0.
    split; [done|]. split; [by apply Forall_replicate|].
    split; [lia|]. by exists false. }
  destruct (run_schedule_lock_inv id m sched _ _ Hinit Hrun)
    as (Hreg' & _ & Hle & b & Hm' & Hfree). simpl in *.
  pose proof (open_generations_le_holders id tasks').
  repeat split; [lia|done| |done].
  intros Hone. rewrite Hm'. destruct b; [done|]. specialize (Hfree eq_refl). lia.
Qed.

(** ** Streams side by side *)

(** X13. A generation open on one stream does not keep a writer of another
    stream waiting: if the two streams have different lock keys and do not
    share a mutex object, and the second stream's lock was free before the
    first generation was obtained, [ObtainGeneration] for the second stream
    returns. *)
Theorem ObtainGeneration_other_stream (bs bs1 : BlockStore) (id1 id2 : UUID)
    (g : Generation) :
  ObtainGeneration bs id1 = (Return g, bs1) →
  UUIDToMapKey id2 ≠ UUIDToMapKey id1 →
  (∀ m, _wlocks bs !! UUIDToMapKey id2 = Some m →
        _wlocks bs !! UUIDToMapKey id1 ≠ Some m) →
  wlock_free bs id2 →
  ∃ g2 bs2,
    ObtainGeneration bs1 id2 = (Return g2, bs2)
    ∧ ObtainGeneration bs2 id1 = (Blocks, bs2).
Proof.
  intros Hog Hkeys Hshare Hfree.
  assert (wlock_free bs1 id2 ∧ _wlocks bs1 !! UUIDToMapKey id2
                               = _wlocks bs !! UUIDToMapKey id2) as [Hfree1 Hreg2].
  { revert Hog. unfold ObtainGeneration, wlock_free in *.
    destruct (_wlocks bs !! UUIDToMapKey id1) as [m1|] eqn:Hreg1.
    - unfold Mutex_Lock.
      destruct (mutexes bs !! m1) as [[|]|]; [done| |done].
      intros [= _ <-]. simpl. split; [|done].
      destruct (_wlocks bs !! UUIDToMapKey id2) as [m2|] eqn:Hreg2; [|done].
      unfold MutexHeap in *. rewrite list_lookup_insert_ne; [done|].
      intros ->. by apply (Hshare m2).
    - pose proof (Mutex_Lock_new (mutexes bs)) as Hlock.
      unfold Mutex_new in *. simpl in *. rewrite Hlock.
      intros [= _ <-]. simpl. rewrite lookup_insert_ne by done. split; [|done].
      destruct (_wlocks bs !! UUIDToMapKey id2) as [m2|]; [|done].
      unfold MutexHeap in *. rewrite lookup_app_l; [done|].
      by eapply lookup_lt_Some. }
  destruct (ObtainGeneration_returns bs1 id2 Hfree1) as (bs2 & Hog2 & _).
  destruct (load_generation_total bs1 id2) as (g2 & Hload & _).
  exists g2, bs2. rewrite Hog2, Hload. split; [done|].
  destruct (ObtainGeneration_holds_lock _ _ _ _ Hog) as (m1 & Hm1 & Hheld).
  rewrite Hload in Hog2.
  revert Hog2. unfold ObtainGeneration at 1.
  destruct (_wlocks bs1 !! UUIDToMapKey id2) as [m2|] eqn:Hr2.
  - unfold Mutex_Lock.
    destruct (mutexes bs1 !! m2) as [[|]|] eqn:Hm2; [done| |done].
    intros [= _ <-]. unfold ObtainGeneration, Mutex_Lock. simpl. rewrite Hm1.
    unfold MutexHeap in *. rewrite list_lookup_insert_ne; [by rewrite Hheld|].
    intros ->. congruence.
  - pose proof (Mutex_Lock_new (mutexes bs1)) as Hlock.
    unfold Mutex_new in *. simpl in *. rewrite Hlock.
    intros [= _ <-]. unfold ObtainGeneration, Mutex_Lock. simpl.
    rewrite lookup_insert_ne by done. rewrite Hm1.
    unfold MutexHeap in *.
    rewrite lookup_app_l by (by eapply lookup_lt_Some). by rewrite Hheld.
Qed.

(** ** Generation after generation *)

Lemma load_generation_current (bs : BlockStore) (id : UUID) (g : Generation) :
  load_generation bs id = Return g →
  gen (Cur_SB g) = 0
  ∨ ∃ d, d ∈ db bs ∧ Uuid d = uuid_String id ∧ Gen d = gen (Cur_SB g).
Proof.
  unfold load_generation.
  pose proof (One_latest (db bs) id) as Hone.
  destruct (Mgo.One _) as [rs| |e]; [| |done]; intros [= <-]; simpl; [|by left].
  right. destruct Hone as [[Hm Hrs]%elem_of_matching _].
  apply matches_stream_selector in Hm. by exists rs.
Qed.

Lemma commit_cycle_inv (id : UUID) (ops : list GenOp) (bs bs2 : BlockStore) :
  commit_cycle id ops bs = Some bs2 →
  ∃ g bs1 g2 address_map,
    ObtainGeneration bs id = (Return g, bs1)
    ∧ Commit (apply_ops ops (g, bs1)).1 (apply_ops ops (g, bs1)).2
      = (Return (Some address_map, None), g2, bs2).
Proof.
  unfold commit_cycle.
  destruct (ObtainGeneration bs id) as [[g| |] bs1]; [|done..].
  destruct (Commit _ _) as [[r g2] bs2'] eqn:Hc.
  destruct r as [[[amap|] [e|]]| |]; try done.
  intros [= <-]. by exists g, bs1, g2, amap.
Qed.

(** The generation a task obtains right after its commit. *)
Lemma ObtainGeneration_after_commit (bs bs1 bs2 : BlockStore) (id : UUID)
    (g g2 : Generation) (ops : list GenOp) (address_map : gmap Z Z) :
  (∀ d, d ∈ db bs → Uuid d = uuid_String id → 0 ≤ Gen d < 2 ^ 64 - 1) →
  ObtainGeneration bs id = (Return g, bs1) →
  Commit (apply_ops ops (g, bs1)).1 (apply_ops ops (g, bs1)).2
    = (Return (Some address_map, None), g2, bs2) →
  ∃ g3 bs3,
    ObtainGeneration bs2 id = (Return g3, bs3)
    ∧ gen (Cur_SB g3) = Number g.
Proof.
  intros Hrange Hog Hcommit.
  destruct (sequential_commit _ _ _ _ _ _ _ _ Hrange Hog Hcommit)
    as (Hdb & Hnum & Habove & Hfree & _).
  destruct (ObtainGeneration_returns bs2 id Hfree) as (bs3 & Hog3 & _).
  eexists _, bs3. rewrite Hog3. split.
  - f_equal. unfold load_generation.
    rewrite Hdb, latest_after_append by done. reflexivity.
  - done.
Qed.

(** X14. One task committing generation after generation on a stream, with
    versions below the largest [uint64], appends one record per commit and
    nothing else: the records carry the stream and consecutive versions,
    starting with the number of the generation [ObtainGeneration] returns
    at the outset, and none is unlinked. *)
Theorem commit_cycles_versions (id : UUID) (cycles : list (list GenOp))
    (bs bs1 bs' : BlockStore) (g0 : Generation) :
  (∀ d, d ∈ db bs → Uuid d = uuid_String id →
        0 ≤ Gen d ∧ Gen d + Z.of_nat (length cycles) < 2 ^ 64 - 1) →
  Z.of_nat (length cycles) < 2 ^ 64 - 1 →
  ObtainGeneration bs id = (Return g0, bs1) →
  commit_cycles id cycles bs = Some bs' →
  ∃ docs,
    db bs' = db bs ++ docs
    ∧ (λ d, (Uuid d, Gen d, Unlinked d)) <$> docs
      = (λ i : nat, (uuid_String id, Number g0 + Z.of_nat i, false))
          <$> seq 0 (length cycles).
Proof.
  revert bs bs1 g0.
  induction cycles as [|ops cycles IH]; intros bs bs1 g0 Hrange Hlen Hog0; simpl.
  - intros [= <-]. exists []. by rewrite app_nil_r.
  - destruct (commit_cycle id ops bs) as [bs2|] eqn:Hcycle; [|done]. simpl.
    intros Hrest.
    destruct (commit_cycle_inv _ _ _ _ Hcycle) as (g & bs1' & g2 & amap & Hog & Hcommit).
    rewrite Hog0 in Hog. injection Hog as <- <-.
    assert (∀ d, d ∈ db bs → Uuid d = uuid_String id → 0 ≤ Gen d < 2 ^ 64 - 1)
      as Hrange0.
    { intros d Hd Hu. specialize (Hrange d Hd Hu). simpl in Hrange. lia. }
    destruct (sequential_commit _ _ _ _ _ _ _ _ Hrange0 Hog0 Hcommit)
      as (Hdb & Hnum & Habove & _).
    destruct (ObtainGeneration_after_commit _ _ _ _ _ _ _ _ Hrange0 Hog0 Hcommit)
      as (g3 & bs3 & Hog3 & Hcur3).
    destruct (ObtainGeneration_inv _ _ _ _ Hog0) as [Hload0 _].
    destruct (ObtainGeneration_inv _ _ _ _ Hog3) as [Hload3 _].
    apply load_generation_versions in Hload3 as (Hnum3 & _).
    assert (0 ≤ Number g0 ∧ Number g0 + Z.of_nat (length cycles) < 2 ^ 64 - 1)
      as Hnew.
    { rewrite Hnum. simpl in Hlen.
      destruct (load_generation_current _ _ _ Hload0) as [->|(d & Hd & Hu & <-)];
        [lia|].
      specialize (Hrange d Hd Hu). simpl in Hrange. lia. }
    assert (Number g3 = Number g0 + 1) as Hnext.
    { unfold Number at 1. rewrite Hnum3, Hcur3.
      unfold wrap64, two64. apply Z.mod_small. lia. }
    destruct (IH bs2 bs3 g3) as (docs & Hdocs & Hkeys); [| |done|done|].
    { intros d Hd Hu. rewrite Hdb in Hd.
      apply elem_of_app in Hd as [Hd|Hd].
      - specialize (Hrange d Hd Hu). simpl in Hrange. lia.
      - apply list_elem_of_singleton in Hd as ->. simpl. lia. }
    { simpl in Hlen. lia. }
    exists (mk_fake_sblock (uuid_String id) (Number g0) (root (New_SB g2)) false
              :: docs).
    split; [by rewrite Hdocs, Hdb, <- app_assoc|].
    rewrite fmap_cons, Hkeys. cbn [seq fmap list_fmap]. f_equal.
    + simpl. do 2 f_equal. lia.
    + rewrite <- fmap_S_seq, <- list_fmap_compose.
      apply list_fmap_ext. intros i x _. simpl. rewrite Hnext. do 2 f_equal. lia.
Qed.

End Further.

(** * The further properties at work on the sample environment *)

Module FurtherEvaluation.
Import Sample.
#[local] Existing Instance env.

Lemma six_versions_in_range :
  ∀ d, d ∈ db bs_six → Uuid d = uuid_String S1 → 0 ≤ Gen d < 2 ^ 64 - 1.
Proof.
  intros d Hd _. revert d Hd. apply Forall_forall.
  apply (bool_decide_unpack (Forall (λ d, 0 ≤ Gen d < 2 ^ 64 - 1) (db bs_six))).
  vm_compute. exact I.
Qed.

Lemma six_versions_unique : sb_unique (db bs_six).
Proof.
  unfold sb_unique.
  apply (bool_decide_unpack (NoDup (sb_key <$> db bs_six))).
  vm_compute. exact I.
Qed.

Lemma obtained_on_six_versions :
  ObtainGeneration bs_six S1 = (Return obtained_gen, obtained_bs).
Proof. vm_compute. reflexivity. Qed.

Lemma committed_returns :
  Commit (apply_ops pending_ops (obtained_gen, obtained_bs)).1
    (apply_ops pending_ops (obtained_gen, obtained_bs)).2
  = (Return (Some {[ first_address := first_final ]}, None),
     committed.1.2, committed.2).
Proof. vm_compute. reflexivity. Qed.

(** Witness of X1: a three-byte identifier, and the streams [S1] and
    [S2]. *)
Lemma UUIDToMapKey_injective_witness :
  (length (UUIDToMapKey [1; 2; 3]) = 16%nat
   ∧ (∀ i, (i < 16)%nat →
        UUIDToMapKey [1; 2; 3] !! i = Some (default 0 ([1; 2; 3] !! i)))
   ∧ (length [1; 2; 3] = 16%nat → length S2 = 16%nat →
      UUIDToMapKey [1; 2; 3] = UUIDToMapKey S2 → [1; 2; 3] = S2)
   ∧ ((length [1; 2; 3] < 16)%nat →
      UUIDToMapKey ([1; 2; 3] ++ [0]) = UUIDToMapKey [1; 2; 3]))
  ∧ (length S1 = 16%nat → length S2 = 16%nat →
     UUIDToMapKey S1 = UUIDToMapKey S2 → S1 = S2).
Proof.
  split; [exact (UUIDToMapKey_injective [1; 2; 3] S2)|].
  exact (proj1 (proj2 (proj2 (UUIDToMapKey_injective S1 S2)))).
Defined.

(** Witness of X2: the generation committed on the six versions is version
    7. *)
Lemma Commit_then_LoadSuperblock_witness :
  LoadSuperblock committed.2 S1 LatestGeneration
  = Return (Some {| uuid := S1; gen := gen (Cur_SB obtained_gen) + 1;
                    root := root (New_SB committed.1.2); unlinked := false |})
  ∧ LoadSuperblock committed.2 S1 (Number obtained_gen)
    = LoadSuperblock committed.2 S1 LatestGeneration
  ∧ ({[ first_address := first_final ]} : gmap Z Z)
      !! root (New_SB (apply_ops pending_ops (obtained_gen, obtained_bs)).1)
    = Some (root (New_SB committed.1.2)).
Proof.
  exact (Commit_then_LoadSuperblock bs_six obtained_bs committed.2 S1 obtained_gen
           committed.1.2 pending_ops _ six_versions_in_range
           obtained_on_six_versions committed_returns).
Defined.

(** Witness of X3: after that commit the next generation starts from
    version 7. *)
Lemma Commit_then_ObtainGeneration_witness :
  ∃ g3 bs3,
    ObtainGeneration committed.2 S1 = (Return g3, bs3)
    ∧ Cur_SB g3 = {| uuid := S1; gen := gen (Cur_SB obtained_gen) + 1;
                     root := root (New_SB committed.1.2); unlinked := false |}
    ∧ Number g3 = wrap64 (gen (Cur_SB obtained_gen) + 2)
    ∧ flushed g3 = false.
Proof.
  exact (Commit_then_ObtainGeneration bs_six obtained_bs committed.2 S1 obtained_gen
           committed.1.2 pending_ops _ six_versions_in_range
           obtained_on_six_versions committed_returns).
Defined.

(** Witness of X4: a second call on the six versions waits. *)
Lemma ObtainGeneration_excludes_witness :
  ObtainGeneration bs_six S1 = (Return obtained_gen, obtained_bs)
  ∧ ObtainGeneration obtained_bs S1 = (Blocks, obtained_bs).
Proof.
  split; [exact obtained_on_six_versions|].
  exact (ObtainGeneration_excludes bs_six obtained_bs S1 obtained_gen
           obtained_on_six_versions).
Defined.

(** Witness of X5: the store after the commit on the six versions. *)
Lemma sequential_use_keeps_unique_witness :
  sb_unique (db (apply_ops (pending_ops ++ [OpCommit]) (obtained_gen, obtained_bs)).2).
Proof.
  exact (sequential_use_keeps_unique bs_six obtained_bs S1 obtained_gen
           (pending_ops ++ [OpCommit]) six_versions_unique six_versions_in_range
           obtained_on_six_versions).
Defined.

(** Witness of X6: versions 5 and 6, the latest, are unlinked, and the next
    generation still is version 7. *)
Lemma UnlinkGenerations_keeps_latest_witness :
  (ObtainGeneration (UnlinkGenerations bs_six S1 5 7).2 S1).1
  = (ObtainGeneration bs_six S1).1.
Proof. exact (UnlinkGenerations_keeps_latest bs_six S1 S1 5 7 six_versions_unique). Defined.

(** Witness of X7: [UnlinkGenerations(S1, 2, 5)] twice on the six
    versions. *)
Lemma UnlinkGenerations_idempotent_witness :
  UnlinkGenerations (UnlinkGenerations bs_six S1 2 5).2 S1 2 5
  = ((UnlinkGenerations bs_six S1 2 5).1, (UnlinkGenerations bs_six S1 2 5).2)
  ∧ ((∀ d, d ∈ db bs_six → in_unlink_range S1 2 5 d → Root d < 2 ^ 63) →
     (UnlinkGenerations bs_six S1 2 5).1 = Return None).
Proof. exact (UnlinkGenerations_idempotent bs_six S1 2 5 six_versions_unique). Defined.

(** Witness of X9: the pending generation of the sample, on a block store
    just built. *)
Lemma pending_blocks_distinct_witness :
  0 ≤ RELOCATION_BASE < 2 ^ 64
  ∧ alloc_inv 0 (alloc bs_six)
  ∧ Z.of_nat (0 + length pending_ops) ≤ 2 ^ 64 - RELOCATION_BASE
  ∧ let g' := (apply_ops pending_ops (obtained_gen, obtained_bs)).1 in
    NoDup (pending_addresses g')
    ∧ (∀ a, a ∈ pending_addresses g' →
         ∃ i : nat, (0 ≤ i < 0 + length pending_ops)%nat
                    ∧ a = RELOCATION_BASE + Z.of_nat i)
    ∧ (∀ cb, cb ∈ cblocks g' → cb_Generation cb = Number obtained_gen)
    ∧ (∀ vb, vb ∈ vblocks g' → vb_Generation vb = Number obtained_gen).
Proof.
  assert (0 ≤ RELOCATION_BASE < 2 ^ 64) as Hbase by (simpl; lia).
  assert (Z.of_nat (0 + length pending_ops) ≤ 2 ^ 64 - RELOCATION_BASE) as Hroom
    by (simpl; lia).
  split; [exact Hbase|]. split; [exact (alloc_inv_fresh Hbase)|].
  split; [exact Hroom|].
  exact (pending_blocks_distinct Hbase bs_six obtained_bs S1 obtained_gen 0
           pending_ops obtained_on_six_versions (alloc_inv_fresh Hbase) Hroom).
Defined.

(** Witness of X10: two tasks on a registered mutex, the first past the
    lock, the second waiting in front of it. *)
Lemma registered_lock_excludes_witness :
  run_schedule [0; 1; 0; 0]%nat (bs_registered, replicate 2 (AtLookup S1))
  = Some one_past_the_lock
  ∧ (open_generations S1 one_past_the_lock.2 ≤ 1)%nat
  ∧ (holders one_past_the_lock.2 ≤ 1)%nat
  ∧ (holders one_past_the_lock.2 = 1%nat →
     mutexes one_past_the_lock.1 !! 0%nat = Some true)
  ∧ _wlocks one_past_the_lock.1 !! UUIDToMapKey S1 = Some 0%nat.
Proof.
  assert (run_schedule [0; 1; 0; 0]%nat (bs_registered, replicate 2 (AtLookup S1))
          = Some (one_past_the_lock.1, one_past_the_lock.2)) as Hrun
    by (vm_compute; reflexivity).
  split; [vm_compute; reflexivity|].
  refine (registered_lock_excludes bs_registered one_past_the_lock.1 S1 0 2
            [0; 1; 0; 0]%nat one_past_the_lock.2 _ _ Hrun);
    vm_compute; reflexivity.
Defined.

(** Witness of X11: the generation of the sample committed as it was
    obtained, with the unresolved root 106. *)
Lemma Commit_root_panic_keeps_lock_witness :
  Commit (apply_ops [] (obtained_gen, obtained_bs)).1
    (apply_ops [] (obtained_gen, obtained_bs)).2
  = (Panic "Could not obtain root address", committed_at_once.1.2, committed_at_once.2)
  ∧ ObtainGeneration committed_at_once.2 S1 = (Blocks, committed_at_once.2)
  ∧ db committed_at_once.2 = db bs_six
  ∧ cblocks committed_at_once.1.2 = [] ∧ vblocks committed_at_once.1.2 = []
  ∧ flushed committed_at_once.1.2 = false.
Proof.
  assert (Commit (apply_ops [] (obtained_gen, obtained_bs)).1
            (apply_ops [] (obtained_gen, obtained_bs)).2
          = (Panic "Could not obtain root address", committed_at_once.1.2,
             committed_at_once.2)) as Hpanic by (vm_compute; reflexivity).
  split; [exact Hpanic|].
  exact (Commit_root_panic_keeps_lock bs_six obtained_bs committed_at_once.2 S1
           obtained_gen committed_at_once.1.2 [] obtained_on_six_versions Hpanic).
Defined.

(** Witness of X15: on a store whose latest version is [2^63 - 1] the next
    generation is version [2^63], and its commit is refused. *)
Lemma Commit_insert_panic_keeps_lock_witness :
  ObtainGeneration last_storable S1 = (Return refused_gen, past_storable.2)
  ∧ Commit (apply_ops pending_ops (refused_gen, past_storable.2)).1
      (apply_ops pending_ops (refused_gen, past_storable.2)).2
    = (Panic Mgo.bson_uint64, refused.1.2, refused.2)
  ∧ ObtainGeneration refused.2 S1 = (Blocks, refused.2)
  ∧ db refused.2 = db last_storable
  ∧ cblocks refused.1.2 = [] ∧ vblocks refused.1.2 = []
  ∧ flushed refused.1.2 = false
  ∧ Number refused.1.2 = Number refused_gen
  ∧ (2 ^ 63 ≤ Number refused_gen ∨ 2 ^ 63 ≤ root (New_SB refused.1.2)).
Proof.
  assert (ObtainGeneration last_storable S1 = (Return refused_gen, past_storable.2))
    as Hog by (vm_compute; reflexivity).
  assert (Commit (apply_ops pending_ops (refused_gen, past_storable.2)).1
            (apply_ops pending_ops (refused_gen, past_storable.2)).2
          = (Panic Mgo.bson_uint64, refused.1.2, refused.2)) as Hpanic
    by (vm_compute; reflexivity).
  split; [exact Hog|]. split; [exact Hpanic|].
  exact (Commit_insert_panic_keeps_lock last_storable past_storable.2 refused.2 S1
           refused_gen refused.1.2 pending_ops Hog Hpanic).
Defined.

(** Witness of X13: with a generation of [S1] open, [S2] is obtained. *)
Lemma ObtainGeneration_other_stream_witness :
  UUIDToMapKey S2 ≠ UUIDToMapKey S1
  ∧ wlock_free bs_six S2
  ∧ ∃ g2 bs2,
      ObtainGeneration obtained_bs S2 = (Return g2, bs2)
      ∧ ObtainGeneration bs2 S1 = (Blocks, bs2).
Proof.
  assert (UUIDToMapKey S2 ≠ UUIDToMapKey S1) as Hkeys by (vm_compute; congruence).
  assert (wlock_free bs_six S2) as Hfree by (vm_compute; exact I).
  split; [exact Hkeys|]. split; [exact Hfree|].
  refine (ObtainGeneration_other_stream bs_six obtained_bs S1 S2 obtained_gen
            obtained_on_six_versions Hkeys _ Hfree).
  intros m Hm. vm_compute in Hm. congruence.
Defined.

(** Witness of X14: two generations in a row on the six versions write
    versions 7 and 8. *)
Lemma commit_cycles_versions_witness :
  commit_cycles S1 two_cycles bs_six = Some after_two_cycles
  ∧ ∃ docs,
      db after_two_cycles = db bs_six ++ docs
      ∧ (λ d, (Uuid d, Gen d, Unlinked d)) <$> docs
        = (λ i : nat, (uuid_String S1, Number obtained_gen + Z.of_nat i, false))
            <$> seq 0 (length two_cycles).
Proof.
  assert (commit_cycles S1 two_cycles bs_six = Some after_two_cycles) as Hrun
    by (vm_compute; reflexivity).
  split; [exact Hrun|].
  refine (commit_cycles_versions S1 two_cycles bs_six obtained_bs after_two_cycles
            obtained_gen _ _ obtained_on_six_versions Hrun).
  - intros d Hd Hu. pose proof (six_versions_in_range d Hd Hu) as Hr.
    revert d Hd Hu Hr. intros d Hd _ _. revert d Hd. apply Forall_forall.
    apply (bool_decide_unpack
             (Forall (λ d, 0 ≤ Gen d ∧ Gen d + Z.of_nat (length two_cycles) < 2 ^ 64 - 1)
                (db bs_six))).
    vm_compute. exact I.
  - simpl. lia.
Defined.

End FurtherEvaluation.
